(** * ettv-api: the dump parser and the magnet builder of [index.js]

    A shallow embedding of [index.js] and of the two Node built-ins it
    leans on ([String.prototype.split] and [querystring.stringify]),
    followed by the properties of the parser, of the magnet builder and of
    the fetcher.

    Strings.  A dump is "gzip-compressed UTF-8 text"; the fetcher turns the
    decompressed bytes into a JavaScript string by UTF-8 decoding, so every
    string that reaches the parser is well-formed Unicode.  A string is
    modelled by its UTF-8 bytes ([string], a list of 8-bit characters).
    Splitting on the ASCII separators ['|'] and ['\n'] and percent-escaping
    act the same on the bytes as on the decoded text: no byte of a
    multi-byte UTF-8 sequence is an ASCII byte, and [querystring.escape]
    writes a non-ASCII character as the [%XX] of each of its UTF-8 bytes.
    (Strings holding a lone surrogate have no UTF-8 form and are outside
    this model; the decoder never produces one.) *)

From Stdlib Require Import String Ascii List Bool Arith Lia.
Import ListNotations.
Open Scope string_scope.

(** ** JavaScript strings *)

Module JsString.

(** [s.split(sep)] for a separator of one character, as [index.js] calls
    it: the pieces between the separators, one empty piece for the empty
    string. *)
Fixpoint split (sep : ascii) (s : string) : list string :=
  match s with
  | EmptyString => [EmptyString]
  | String c rest =>
      if Ascii.eqb c sep then EmptyString :: split sep rest
      else match split sep rest with
           | [] => [String c EmptyString]
           | piece :: pieces => String c piece :: pieces
           end
  end.

(** [s.startsWith(p)] *)
Fixpoint startsWith (p s : string) : bool :=
  match p, s with
  | EmptyString, _ => true
  | String _ _, EmptyString => false
  | String a p', String b s' => Ascii.eqb a b && startsWith p' s'
  end.

(** [s.includes(sub)] *)
Fixpoint includes (sub s : string) : bool :=
  startsWith sub s
  || match s with
     | EmptyString => false
     | String _ s' => includes sub s'
     end.

(** Does the character occur in the string? *)
Fixpoint has_char (c : ascii) (s : string) : bool :=
  match s with
  | EmptyString => false
  | String a s' => Ascii.eqb a c || has_char c s'
  end.

(** Every character of the string satisfies [p]. *)
Fixpoint all_chars (p : ascii -> bool) (s : string) : bool :=
  match s with
  | EmptyString => true
  | String a s' => p a && all_chars p s'
  end.

(** The pieces written one after the other with [sep] between them
    (the inverse reading of [split]). *)
Fixpoint join (sep : ascii) (pieces : list string) : string :=
  match pieces with
  | [] => EmptyString
  | [piece] => piece
  | piece :: rest => piece ++ String sep (join sep rest)
  end.

(** [sub] occurs in [s]. *)
Definition Substring (sub s : string) : Prop :=
  exists before after, s = before ++ sub ++ after.

(** The ASCII white space a line can hold: space, tab, vertical tab,
    form feed and carriage return (a line feed ends the line). *)
Definition isWhitespace (c : ascii) : bool :=
  existsb (Ascii.eqb c) [" "; "009"; "011"; "012"; "013"]%char.

(** A template literal writes [undefined] for an absent value. *)
Definition toString (v : option string) : string :=
  match v with
  | Some s => s
  | None => "undefined"
  end.

End JsString.

(** ** Node's [querystring] module

    [stringify] and [escape] after [lib/querystring.js] and
    [lib/internal/querystring.js] of Node: the loop over the keys, the loop
    over the elements of an array value, the table of unreserved
    characters and the table of [%XX] forms. *)

Module QueryString.

(** The table of the characters [querystring.escape] leaves alone:
    [A-Z a-z 0-9 - _ . ! ~ * ' ( )]. *)
Definition noEscapeTable : list nat :=
  [ 0; 0; 0; 0; 0; 0; 0; 0; 0; 0; 0; 0; 0; 0; 0; 0;   (* 0 - 15 *)
    0; 0; 0; 0; 0; 0; 0; 0; 0; 0; 0; 0; 0; 0; 0; 0;   (* 16 - 31 *)
    0; 1; 0; 0; 0; 0; 0; 1; 1; 1; 1; 0; 0; 1; 1; 0;   (* 32 - 47 *)
    1; 1; 1; 1; 1; 1; 1; 1; 1; 1; 0; 0; 0; 0; 0; 0;   (* 48 - 63 *)
    0; 1; 1; 1; 1; 1; 1; 1; 1; 1; 1; 1; 1; 1; 1; 1;   (* 64 - 79 *)
    1; 1; 1; 1; 1; 1; 1; 1; 1; 1; 1; 0; 0; 0; 0; 1;   (* 80 - 95 *)
    0; 1; 1; 1; 1; 1; 1; 1; 1; 1; 1; 1; 1; 1; 1; 1;   (* 96 - 111 *)
    1; 1; 1; 1; 1; 1; 1; 1; 1; 1; 1; 0; 0; 0; 1; 0 ]. (* 112 - 127 *)

Definition noEscape (c : ascii) : bool :=
  Nat.eqb (nth (nat_of_ascii c) noEscapeTable 0) 1.

Definition hexDigit (n : nat) : ascii :=
  nth n (list_ascii_of_string "0123456789ABCDEF") "0"%char.

(** [hexTable[i]]: ['%'] and the two upper-case hexadecimal digits. *)
Definition hexTable (c : ascii) : string :=
  let n := nat_of_ascii c in
  String "%" (String (hexDigit (n / 16))
                     (String (hexDigit (n mod 16)) EmptyString)).

(** [querystring.escape], on the UTF-8 bytes of the string: an unreserved
    ASCII character stays, every other byte becomes its [%XX]. *)
Fixpoint qsEscape (str : string) : string :=
  match str with
  | EmptyString => EmptyString
  | String c rest =>
      (if noEscape c then String c EmptyString else hexTable c) ++ qsEscape rest
  end.

(** The characters an escaped string is made of. *)
Definition escaped_char (c : ascii) : bool :=
  noEscape c || Ascii.eqb c "%".

(** The values [stringify] meets in [index.js]: a string or [undefined],
    or an array of them. *)
Inductive primitive : Type :=
| Undefined
| Str (s : string).

Inductive value : Type :=
| Prim (v : primitive)
| Arr (vs : list primitive).

Definition sep : string := "&".
Definition eq_sign : string := "=".

(** [encodeStringified]: a non-empty string is escaped, anything that is
    not a string, number, bigint or boolean gives [''] . *)
Definition encodeStringified (v : primitive) : string :=
  match v with
  | Str s => if Nat.eqb (String.length s) 0 then EmptyString else qsEscape s
  | Undefined => EmptyString
  end.

(** [if (fields) fields += sep] *)
Definition addSep (fields : string) : string :=
  match fields with
  | EmptyString => fields
  | _ => fields ++ sep
  end.

(** The loop over the elements [v[j]], [j = j0 ...], of an array value. *)
Fixpoint stringifyArray (ks : string) (j : nat) (v : list primitive)
         (fields : string) : string :=
  match v with
  | [] => fields
  | vj :: rest =>
      let fields := if Nat.eqb j 0 then fields else fields ++ sep in
      stringifyArray ks (S j) rest (fields ++ ks ++ encodeStringified vj)
  end.

(** One turn of the loop over the keys of the object. *)
Definition stringifyKey (fields : string) (kv : string * value) : string :=
  let '(k, v) := kv in
  let ks := encodeStringified (Str k) ++ eq_sign in
  match v with
  | Arr vs =>
      if Nat.eqb (List.length vs) 0 then fields
      else stringifyArray ks 0 vs (addSep fields)
  | Prim p => addSep fields ++ ks ++ encodeStringified p
  end.

(** [querystring.stringify(obj)]; the object is the list of its own
    properties in the order of [Object.keys], which for keys that are not
    integer-like (as [xt], [dn], [tr]) is the order of insertion; the
    values are those of [value], strings, [undefined] and arrays of them. *)
Definition stringify (obj : list (string * value)) : string :=
  fold_left stringifyKey obj EmptyString.

(** Reading a query string back: the parameters are the pieces between
    the ['&'], the key of a parameter is what stands before its first
    ['=']. *)
Fixpoint cut (s : string) : string * string :=
  match s with
  | EmptyString => (EmptyString, EmptyString)
  | String c rest =>
      if Ascii.eqb c "=" then (EmptyString, rest)
      else let '(k, v) := cut rest in (String c k, v)
  end.

Definition params (qs : string) : list (string * string) :=
  match qs with
  | EmptyString => []
  | _ => map cut (JsString.split "&" qs)
  end.

(** The values of the parameters with key [k], in order. *)
Definition values_of (k : string) (ps : list (string * string)) : list string :=
  map snd (filter (fun p => String.eqb (fst p) k) ps).

End QueryString.

(** ** [index.js] *)

Import JsString QueryString.

(** The default trackers to use for the hash. *)
Definition defaultTrackers : list string :=
  [ "udp%3A%2F%2Ftracker.coppersurfer.tk:6969/announce&";
    "udp%3A%2F%2F9.rarbg.to:2710/announce&";
    "udp%3A%2F%2F9.rarbg.me:2710/announce&";
    "udp%3A%2F%2FIPv6.open-internet.nl:6969/announce&";
    "udp%3A%2F%2Ftracker.internetwarriors.net:1337/announce&";
    "udp%3A%2F%2Ftracker.opentrackr.org:1337/announce&";
    "udp%3A%2F%2Fp4p.arenabg.com:1337/announce&";
    "udp%3A%2F%2Feddie4.nl:6969/announce&";
    "udp%3A%2F%2Fshadowshq.yi.org:6969/announce&";
    "udp%3A%2F%2Ftracker.leechers-paradise.org:6969/announce&";
    "udp%3A%2F%2Fexplodie.org:6969/announce&";
    "udp%3A%2F%2Ftracker.tiny-vps.com:6969/announce&";
    "udp%3A%2F%2Finferno.demonoid.pw:3391/announce&";
    "udp%3A%2F%2Fipv4.tracker.harry.lu:80/announce&";
    "udp%3A%2F%2Fpeerfect.org:6969/announce&";
    "udp%3A%2F%2Ftracker.pirateparty.gr:6969/announce&";
    "udp%3A%2F%2Ftracker.vanitycore.co:6969/announce&";
    "udp%3A%2F%2Fopen.stealth.si:80/announce&";
    "udp%3A%2F%2Ftracker.torrent.eu.org:451&";
    "udp%3A%2F%2Ftracker.zer0day.to:1337/announce&";
    "udp%3A%2F%2Ftracker.open-internet.nl:6969/announce" ].

(** The client: its base url and its list of trackers. *)
Record EttvApi : Type := {
  _baseUrl : string;
  _trackers : list string
}.

(** [constructor({ baseUrl = 'https://www.ettv.tv/',
                   trackers = exports.defaultTrackers } = {})] *)
Definition constructor (baseUrl : option string)
           (trackers : option (list string)) : EttvApi :=
  {| _baseUrl := match baseUrl with
                 | Some u => u
                 | None => "https://www.ettv.tv/"
                 end;
     _trackers := match trackers with
                  | Some l => l
                  | None => defaultTrackers
                  end |}.

(** The torrent object; a property that is [undefined] is [None]. *)
Record Torrent : Type := {
  hash : option string;
  title : option string;
  category : option string;
  link : option string;
  magnet : option string
}.

(** [{}] *)
Definition emptyObject : Torrent :=
  {| hash := None; title := None; category := None; link := None;
     magnet := None |}.

(** [acc[curr] = v] *)
Definition setProperty (acc : Torrent) (curr : string) (v : option string)
  : Torrent :=
  if String.eqb curr "hash" then
    {| hash := v; title := title acc; category := category acc;
       link := link acc; magnet := magnet acc |}
  else if String.eqb curr "title" then
    {| hash := hash acc; title := v; category := category acc;
       link := link acc; magnet := magnet acc |}
  else if String.eqb curr "category" then
    {| hash := hash acc; title := title acc; category := v;
       link := link acc; magnet := magnet acc |}
  else if String.eqb curr "link" then
    {| hash := hash acc; title := title acc; category := category acc;
       link := v; magnet := magnet acc |}
  else if String.eqb curr "magnet" then
    {| hash := hash acc; title := title acc; category := category acc;
       link := link acc; magnet := v |}
  else acc.

(** [arr.reduce((acc, curr, i) => f(acc, curr, i), init)], from index [i]. *)
Fixpoint reduce {A B : Type} (f : B -> A -> nat -> B) (arr : list A)
         (i : nat) (acc : B) : B :=
  match arr with
  | [] => acc
  | curr :: rest => reduce f rest (S i) (f acc curr i)
  end.

Definition headers : list string := ["hash"; "title"; "category"; "link"].

(** A string or [undefined] as a value handed to [stringify]. *)
Definition toPrimitive (v : option string) : primitive :=
  match v with
  | Some s => Str s
  | None => Undefined
  end.

(** The query string of [_convertChunk]:
    [stringify({ xt: `urn:btih:${torrent.hash}`, dn: torrent.title,
                 tr: this._trackers })] *)
Definition magnetQuery (this : EttvApi) (torrent : Torrent) : string :=
  stringify
    [ ("xt", Prim (Str ("urn:btih:" ++ toString (hash torrent))));
      ("dn", Prim (toPrimitive (title torrent)));
      ("tr", Arr (map Str (_trackers this))) ].

(** The entries [stringify] is asked to write for a torrent: [xt], [dn],
    then a [tr] per tracker. *)
Definition magnetParts (this : EttvApi) (torrent : Torrent) : list string :=
  ("xt=" ++ qsEscape ("urn:btih:" ++ toString (hash torrent)))
    :: ("dn=" ++ encodeStringified (toPrimitive (title torrent)))
    :: map (fun tracker => "tr=" ++ qsEscape tracker) (_trackers this).

(** Convert one chunk line to a torrent object. *)
Definition _convertChunk (this : EttvApi) (chunk : string) : Torrent :=
  let line := split "|" chunk in
  let torrent :=
    reduce (fun acc curr i => setProperty acc curr (nth_error line i))
           headers 0 emptyObject in
  let qs := magnetQuery this torrent in
  setProperty torrent "magnet" (Some ("$magnet:?" ++ qs)).

(** [line => line !== ''] *)
Definition nonempty (line : string) : bool :=
  negb (String.eqb line EmptyString).

(** Convert the database dump to a list of torrent objects. *)
Definition _convertToTorrents (this : EttvApi) (res : string) : list Torrent :=
  let lines := filter nonempty (split "010" res) in
  map (_convertChunk this) lines.

(** A field of a line holds no ['|'] and no line feed. *)
Definition is_field (s : string) : bool :=
  negb (has_char "|" s) && negb (has_char "010" s).

(** ** The fetcher: [_get], [_getFile], [getDaily], [getFull] *)

(** [new Error(err)] *)
Record Error : Type := { message : string }.

(** A promise: pending, or settled once and for all. *)
Inductive promise (A : Type) : Type :=
| Pending
| Resolved (v : A)
| Rejected (e : Error).
Arguments Pending {A}.
Arguments Resolved {A} v.
Arguments Rejected {A} e.

(** [resolve(v)] and [reject(e)] settle a pending promise and do nothing to
    a settled one. *)
Definition resolve {A : Type} (v : A) (p : promise A) : promise A :=
  match p with
  | Pending => Resolved v
  | _ => p
  end.

Definition reject {A : Type} (e : Error) (p : promise A) : promise A :=
  match p with
  | Pending => Rejected e
  | _ => p
  end.

(** [p.then(f)] for an [f] that returns a plain value. *)
Definition then_ {A B : Type} (p : promise A) (f : A -> B) : promise B :=
  match p with
  | Pending => Pending
  | Resolved v => Resolved (f v)
  | Rejected e => Rejected e
  end.

(** What happens to a call of [_get], in order: [https.get] may throw at
    once (the endpoint is no https url), in which case the executor of the
    promise ends there and nothing follows; otherwise Node delivers the
    events of the request while it is in flight. *)
Inductive event : Type :=
| GetThrows (err : string)     (* [https.get] throws inside the executor *)
| RequestError (err : string)  (* 'error' on the request [https.get] returns:
                                  connection refused, reset, DNS failure *)
| Response                     (* the response arrives: the callback runs *)
| GunzipError (err : string)   (* 'error' on the gunzip stream *)
| GunzipData (chunk : string)  (* 'data' on the gunzip stream *)
| GunzipEnd.                   (* 'end' on the gunzip stream *)

(** The state of one call of [_get]: whether the callback has piped the
    response into the gunzip stream and put its three listeners on it, the
    variable [data], the promise, and the errors no listener took. *)
Record getState : Type := {
  listening : bool;
  data : string;
  settled : promise string;
  unhandled : list string
}.

Definition initialState : getState :=
  {| listening := false; data := EmptyString; settled := Pending;
     unhandled := [] |}.

(** One event against the listeners [_get] registers.  What [https.get]
    throws inside the executor rejects the promise.  The request object
    gets no listener at all, so its 'error' event reaches none of the
    promise's callbacks (Node throws it as an uncaught exception). *)
Definition deliver (st : getState) (ev : event) : getState :=
  match ev with
  | GetThrows err =>
      {| listening := listening st; data := data st;
         settled := reject {| message := err |} (settled st);
         unhandled := unhandled st |}
  | RequestError err =>
      {| listening := listening st; data := data st; settled := settled st;
         unhandled := (unhandled st ++ [err])%list |}
  | Response =>
      {| listening := true; data := EmptyString; settled := settled st;
         unhandled := unhandled st |}
  | GunzipError err =>
      if listening st then
        {| listening := true; data := data st;
           settled := reject {| message := err |} (settled st);
           unhandled := unhandled st |}
      else st
  | GunzipData chunk =>
      if listening st then
        {| listening := true; data := data st ++ chunk;
           settled := settled st; unhandled := unhandled st |}
      else st
  | GunzipEnd =>
      if listening st then
        {| listening := true; data := data st;
           settled := resolve (data st) (settled st);
           unhandled := unhandled st |}
      else st
  end.

Section Fetcher.

(** The outside world: what the network answers at an endpoint, and the
    [href] of [new URL(path, base)]. *)
Variable network : string -> list event.
Variable URL_href : string -> string -> string.

(** Make a GET request. *)
Definition _get (endpoint : string) : promise string :=
  settled (fold_left deliver (network endpoint) initialState).

(** Get the database dump file and convert it to torrent objects. *)
Definition _getFile (this : EttvApi) (file : string)
  : promise (list Torrent) :=
  let href := URL_href ("dumps/ettv_" ++ file ++ ".txt.gz") (_baseUrl this) in
  then_ (_get href) (_convertToTorrents this).

Definition getDaily (this : EttvApi) : promise (list Torrent) :=
  _getFile this "daily".

Definition getFull (this : EttvApi) : promise (list Torrent) :=
  _getFile this "full".

End Fetcher.

(** ** Notions the properties are stated with *)

(** How often a character occurs in a string. *)
Fixpoint count_char (c : ascii) (s : string) : nat :=
  match s with
  | EmptyString => 0
  | String a s' => (if Ascii.eqb a c then 1 else 0) + count_char c s'
  end.

(** Strings written one after the other. *)
Definition concatenation (chunks : list string) : string :=
  fold_right append EmptyString chunks.

(** The attributes of a torrent that are defined, in the order of
    [headers], and the line they make. *)
Definition definedFields (t : Torrent) : list string :=
  flat_map (fun v => match v with Some s => [s] | None => [] end)
           [hash t; title t; category t; link t].

Definition toLine (t : Torrent) : string := join "|" (definedFields t).

(** The title as [stringify] sees it: [undefined] writes nothing. *)
Definition titleText (t : Torrent) : string :=
  match title t with
  | Some s => s
  | None => EmptyString
  end.

(** The value of a hexadecimal digit of [hexTable]. *)
Definition hexValue (d : ascii) : nat :=
  let n := nat_of_ascii d in
  if Nat.leb 65 n then n - 55 else n - 48.

(** The parameters [stringify] writes for one property of the object: one
    for a plain value, one per element for an array. *)
Definition entriesOf (kv : string * value) : list (string * string) :=
  let '(k, v) := kv in
  match v with
  | Prim p => [(qsEscape k, encodeStringified p)]
  | Arr vs => map (fun x => (qsEscape k, encodeStringified x)) vs
  end.

(** A parameter as it stands in the query string. *)
Definition writeEntry (kv : string * string) : string :=
  fst kv ++ String "=" (snd kv).

(** The characters a magnet is made of: those of escaped strings, the
    ['&'] and ['='] of the query string and those of the prefix. *)
Definition magnet_char (c : ascii) : bool :=
  escaped_char c || existsb (Ascii.eqb c) ["&"; "="; "$"; ":"; "?"]%char.

Definition is_request_error (ev : event) : bool :=
  match ev with
  | RequestError _ => true
  | _ => false
  end.

Definition is_end (ev : event) : bool :=
  match ev with
  | GunzipEnd => true
  | _ => false
  end.

(** * Properties *)

(** ** Strings *)

Module StringFacts.

Lemma append_nil_r (s : string) : s ++ EmptyString = s.
Proof. induction s as [|c s IH]; simpl; [reflexivity | now rewrite IH]. Qed.

Lemma append_assoc (a b c : string) : (a ++ b) ++ c = a ++ b ++ c.
Proof. induction a as [|x a IH]; simpl; [reflexivity | now rewrite IH]. Qed.

Lemma has_char_app (c : ascii) (a b : string) :
  has_char c (a ++ b) = has_char c a || has_char c b.
Proof.
  induction a as [|x a IH]; simpl; [reflexivity|].
  now rewrite IH, orb_assoc.
Qed.

Lemma split_not_nil (sep : ascii) (s : string) : split sep s <> [].
Proof.
  induction s as [|c s IH]; simpl; [discriminate|].
  destruct (Ascii.eqb c sep); [discriminate|].
  destruct (split sep s); discriminate.
Qed.

(** A string without the separator is its own single piece. *)
Lemma split_one (sep : ascii) (s : string) :
  has_char sep s = false -> split sep s = [s].
Proof.
  induction s as [|c s IH]; simpl; [reflexivity|].
  intros H. apply orb_false_iff in H as [Hc Hs].
  rewrite Hc, (IH Hs). reflexivity.
Qed.

(** A piece without the separator in front of a separator. *)
Lemma split_cons (sep : ascii) (piece rest : string) :
  has_char sep piece = false ->
  split sep (piece ++ String sep rest) = piece :: split sep rest.
Proof.
  induction piece as [|c p IH]; simpl; intros H.
  - now rewrite Ascii.eqb_refl.
  - apply orb_false_iff in H as [Hc Hp].
    rewrite Hc, (IH Hp). reflexivity.
Qed.

(** Splitting distributes over writing a separator between two texts. *)
Lemma split_app (sep : ascii) (a b : string) :
  split sep (a ++ String sep b) = (split sep a ++ split sep b)%list.
Proof.
  induction a as [|c a IH]; simpl.
  - now rewrite Ascii.eqb_refl.
  - destruct (Ascii.eqb c sep); simpl; [now rewrite IH|].
    rewrite IH.
    destruct (split sep a) as [|p ps] eqn:E; [|reflexivity].
    now apply split_not_nil in E.
Qed.

Lemma split_join (sep : ascii) (pieces : list string) :
  pieces <> [] ->
  Forall (fun p => has_char sep p = false) pieces ->
  split sep (join sep pieces) = pieces.
Proof.
  induction pieces as [|p ps IH]; intros Hne Hall; [congruence|].
  inversion Hall as [|? ? Hp Hps]; subst.
  destruct ps as [|q qs].
  - simpl. now apply split_one.
  - change (join sep (p :: q :: qs)) with (p ++ String sep (join sep (q :: qs))).
    rewrite split_cons by assumption.
    rewrite IH; [reflexivity | discriminate | assumption].
Qed.

Lemma join_split (sep : ascii) (s : string) : join sep (split sep s) = s.
Proof.
  induction s as [|c s IH]; simpl; [reflexivity|].
  destruct (Ascii.eqb_spec c sep) as [->|Hne].
  - destruct (split sep s) as [|p ps] eqn:E.
    + now apply split_not_nil in E.
    + simpl in *. now rewrite IH.
  - destruct (split sep s) as [|p ps] eqn:E.
    + now apply split_not_nil in E.
    + destruct ps; simpl in *; now rewrite <- IH.
Qed.

Lemma split_pieces (sep : ascii) (s : string) :
  Forall (fun p => has_char sep p = false) (split sep s).
Proof.
  induction s as [|c s IH]; simpl.
  - constructor; [reflexivity | constructor].
  - destruct (Ascii.eqb c sep) eqn:Ec.
    + constructor; [reflexivity | assumption].
    + destruct (split sep s) as [|p ps]; simpl.
      * constructor; [simpl; now rewrite Ec | constructor].
      * inversion IH; subst. constructor; [simpl; now rewrite Ec | assumption].
Qed.

Lemma startsWith_spec (p s : string) :
  startsWith p s = true <-> exists rest, s = p ++ rest.
Proof.
  revert s. induction p as [|a p IH]; intros s; simpl.
  - split; [intros _; now exists s | reflexivity].
  - destruct s as [|b s].
    + split; [discriminate | intros [r Hr]; discriminate].
    + rewrite andb_true_iff, IH. split.
      * intros [Hab [r ->]]. apply Ascii.eqb_eq in Hab. subst. now exists r.
      * intros [r Hr]. injection Hr as -> ->.
        split; [apply Ascii.eqb_refl | now exists r].
Qed.

Lemma includes_spec (sub s : string) :
  includes sub s = true <-> Substring sub s.
Proof.
  unfold Substring. induction s as [|c s IH].
  - simpl. rewrite orb_false_r, startsWith_spec. split.
    + intros [r Hr]. now exists EmptyString, r.
    + intros [b [a H]]. destruct b; [now exists a | discriminate].
  - cbn [includes]. rewrite orb_true_iff, startsWith_spec, IH. split.
    + intros [[r Hr] | [b [a H]]].
      * now exists EmptyString, r.
      * exists (String c b), a. simpl. now rewrite H.
    + intros [b [a H]]. destruct b as [|x b].
      * left. now exists a.
      * right. simpl in H. injection H as _ H. now exists b, a.
Qed.

Lemma includes_false (sub s : string) :
  includes sub s = false -> ~ Substring sub s.
Proof.
  intros H Hs. apply includes_spec in Hs. congruence.
Qed.

Lemma all_chars_app (p : ascii -> bool) (a b : string) :
  all_chars p (a ++ b) = all_chars p a && all_chars p b.
Proof.
  induction a as [|x a IH]; simpl; [reflexivity|].
  now rewrite IH, andb_assoc.
Qed.

(** A character that fails [p] is in no string whose characters all
    pass it. *)
Lemma all_chars_has_char (p : ascii -> bool) (c : ascii) (s : string) :
  p c = false -> all_chars p s = true -> has_char c s = false.
Proof.
  intros Hc. induction s as [|a s IH]; simpl; [reflexivity|].
  intros H. apply andb_true_iff in H as [Ha Hs].
  rewrite (IH Hs), orb_false_r.
  destruct (Ascii.eqb_spec a c); [congruence | reflexivity].
Qed.

End StringFacts.

(** ** The query string *)

Module QueryFacts.
Import StringFacts.

Lemma hexTable_chars (c : ascii) : all_chars escaped_char (hexTable c) = true.
Proof. destruct c as [[] [] [] [] [] [] [] []]; reflexivity. Qed.

Lemma qsEscape_chars (s : string) : all_chars escaped_char (qsEscape s) = true.
Proof.
  induction s as [|c s IH]; simpl; [reflexivity|].
  rewrite all_chars_app, IH, andb_true_r.
  destruct (noEscape c) eqn:E.
  - simpl. unfold escaped_char. now rewrite E.
  - apply hexTable_chars.
Qed.

(** An escaped string holds no ['&'] and no ['=']. *)
Lemma qsEscape_no_amp (s : string) : has_char "&" (qsEscape s) = false.
Proof.
  apply all_chars_has_char with (p := escaped_char);
    [reflexivity | apply qsEscape_chars].
Qed.

Lemma qsEscape_no_eq (s : string) : has_char "=" (qsEscape s) = false.
Proof.
  apply all_chars_has_char with (p := escaped_char);
    [reflexivity | apply qsEscape_chars].
Qed.

Lemma qsEscape_app (a b : string) :
  qsEscape (a ++ b) = qsEscape a ++ qsEscape b.
Proof.
  induction a as [|c a IH]; simpl; [reflexivity|].
  now rewrite IH, append_assoc.
Qed.

(** Unreserved characters pass through. *)
Lemma qsEscape_unreserved (s : string) :
  all_chars noEscape s = true -> qsEscape s = s.
Proof.
  induction s as [|c s IH]; simpl; [reflexivity|].
  intros H. apply andb_true_iff in H as [Hc Hs].
  now rewrite Hc, (IH Hs).
Qed.

Lemma length_append (a b : string) :
  String.length (a ++ b) = String.length a + String.length b.
Proof. induction a as [|c a IH]; simpl; [reflexivity | now rewrite IH]. Qed.

Lemma qsEscape_length (s : string) :
  String.length s <= String.length (qsEscape s).
Proof.
  induction s as [|c s IH]; simpl; [lia|].
  rewrite length_append. destruct (noEscape c); simpl; lia.
Qed.

(** A string with a character that is not unreserved grows. *)
Lemma qsEscape_grows (s : string) :
  all_chars noEscape s = false ->
  String.length s < String.length (qsEscape s).
Proof.
  induction s as [|c s IH]; simpl; [discriminate|].
  rewrite length_append.
  destruct (noEscape c) eqn:E; simpl.
  - intros H. apply IH in H. lia.
  - intros _. pose proof (qsEscape_length s). lia.
Qed.

Lemma qsEscape_changes (s : string) :
  all_chars noEscape s = false -> qsEscape s <> s.
Proof.
  intros H Heq. apply qsEscape_grows in H. rewrite Heq in H. lia.
Qed.

Lemma encodeStringified_Str (s : string) :
  encodeStringified (Str s) = qsEscape s.
Proof. destruct s; reflexivity. Qed.

Lemma encodeStringified_no_amp (v : primitive) :
  has_char "&" (encodeStringified v) = false.
Proof.
  destruct v as [|s]; [reflexivity|].
  rewrite encodeStringified_Str. apply qsEscape_no_amp.
Qed.

Lemma join_head (c : ascii) (a b : string) (l : list string) :
  join c ((a ++ b) :: l) = a ++ join c (b :: l).
Proof. destruct l; simpl; [reflexivity | apply append_assoc]. Qed.

(** The loop over an array, once past its first element, writes
    [sep ks value] for each element. *)
Lemma stringifyArray_next (ks : string) (vs : list primitive) :
  forall (j : nat) (fields : string),
    stringifyArray ks (S j) vs fields =
    join "&" (fields :: map (fun v => ks ++ encodeStringified v) vs).
Proof.
  induction vs as [|v vs IH]; intros j fields; [reflexivity|].
  cbn [stringifyArray Nat.eqb map].
  rewrite IH, append_assoc, join_head.
  change (sep ++ ks ++ encodeStringified v)
    with ("&" ++ (ks ++ encodeStringified v)).
  rewrite join_head. reflexivity.
Qed.

Lemma stringifyArray_first (ks : string) (v : primitive)
      (vs : list primitive) (fields : string) :
  stringifyArray ks 0 (v :: vs) fields =
  join "&" ((fields ++ ks ++ encodeStringified v)
            :: map (fun v => ks ++ encodeStringified v) vs).
Proof. cbn [stringifyArray Nat.eqb]. apply stringifyArray_next. Qed.

Lemma join_cons (c : ascii) (a b : string) (l : list string) :
  join c (a :: b :: l) = a ++ String c (join c (b :: l)).
Proof. reflexivity. Qed.

Lemma addSep_nonempty (fields : string) :
  0 < String.length fields -> addSep fields = fields ++ sep.
Proof. destruct fields; simpl; [lia | reflexivity]. Qed.

(** An object of two plain properties and an array property: the
    entries, joined by ['&']. *)
Lemma stringify_two_and_array (k1 k2 k3 : string) (v1 v2 : primitive)
      (vs : list primitive) :
  let ks k := encodeStringified (Str k) ++ eq_sign in
  stringify [(k1, Prim v1); (k2, Prim v2); (k3, Arr vs)] =
  join "&" ((ks k1 ++ encodeStringified v1)
            :: (ks k2 ++ encodeStringified v2)
            :: map (fun v => ks k3 ++ encodeStringified v) vs).
Proof.
  intros ks. unfold stringify. cbn [fold_left stringifyKey].
  fold (ks k1) (ks k2) (ks k3).
  change (addSep EmptyString) with EmptyString.
  change (EmptyString ++ ks k1 ++ encodeStringified v1)
    with (ks k1 ++ encodeStringified v1).
  set (e1 := ks k1 ++ encodeStringified v1).
  set (e2 := ks k2 ++ encodeStringified v2).
  assert (H1 : 0 < String.length e1).
  { unfold e1, ks, eq_sign. rewrite !length_append. simpl. lia. }
  rewrite (addSep_nonempty e1 H1).
  assert (H2 : 0 < String.length ((e1 ++ sep) ++ e2)).
  { rewrite !length_append. lia. }
  destruct vs as [|v vs].
  - simpl. now rewrite append_assoc.
  - cbn [List.length Nat.eqb].
    rewrite stringifyArray_first, (addSep_nonempty _ H2).
    rewrite !append_assoc, !join_head.
    cbn [map]. rewrite !join_cons, join_head. reflexivity.
Qed.

Lemma magnetQuery_join (this : EttvApi) (torrent : Torrent) :
  magnetQuery this torrent = join "&" (magnetParts this torrent).
Proof.
  unfold magnetQuery, magnetParts.
  rewrite stringify_two_and_array, map_map, encodeStringified_Str.
  f_equal. f_equal. f_equal.
  apply map_ext. intros tracker. rewrite !encodeStringified_Str.
  reflexivity.
Qed.

Lemma magnetParts_no_amp (this : EttvApi) (torrent : Torrent) :
  Forall (fun p => has_char "&" p = false) (magnetParts this torrent).
Proof.
  unfold magnetParts. repeat constructor.
  - rewrite has_char_app, qsEscape_no_amp. reflexivity.
  - rewrite has_char_app, encodeStringified_no_amp. reflexivity.
  - apply Forall_map, Forall_forall. intros t _.
    rewrite has_char_app, qsEscape_no_amp. reflexivity.
Qed.

(** Reading the magnet's query string back gives the parameters
    [_convertChunk] wrote: [xt], [dn], then a [tr] per tracker. *)
Lemma params_magnetQuery (this : EttvApi) (torrent : Torrent) :
  params (magnetQuery this torrent) =
  ("xt", qsEscape ("urn:btih:" ++ toString (hash torrent)))
    :: ("dn", encodeStringified (toPrimitive (title torrent)))
    :: map (fun tracker => ("tr", qsEscape tracker)) (_trackers this).
Proof.
  rewrite magnetQuery_join. unfold params.
  rewrite split_join;
    [| discriminate | apply magnetParts_no_amp].
  destruct (join "&" (magnetParts this torrent)) eqn:E.
  - unfold magnetParts in E. destruct (_trackers this); discriminate.
  - unfold magnetParts. cbn [map]. do 2 f_equal.
    rewrite map_map. apply map_ext. reflexivity.
Qed.

Lemma values_of_tr (k : string) (ts : list string) (f : string -> string) :
  values_of k (map (fun t => (k, f t)) ts) = map f ts.
Proof.
  unfold values_of. induction ts as [|t ts IH]; simpl; [reflexivity|].
  rewrite String.eqb_refl. simpl. f_equal. apply IH.
Qed.

Lemma values_of_other (k k' : string) (ts : list string)
      (f : string -> string) :
  String.eqb k' k = false ->
  values_of k (map (fun t => (k', f t)) ts) = [].
Proof.
  intros H. unfold values_of.
  induction ts as [|t ts IH]; simpl; [reflexivity|].
  rewrite H. apply IH.
Qed.

(** The [tr] values of the magnet's query string. *)
Lemma tr_values_magnetQuery (this : EttvApi) (torrent : Torrent) :
  values_of "tr" (params (magnetQuery this torrent)) =
  map qsEscape (_trackers this).
Proof.
  rewrite params_magnetQuery.
  change (values_of "tr" (map (fun t => ("tr", qsEscape t)) (_trackers this))
          = map qsEscape (_trackers this)).
  apply values_of_tr.
Qed.

End QueryFacts.

(** ** The parser *)

Module ParserFacts.
Import StringFacts QueryFacts.

(** [_convertChunk] read off the pieces of the line. *)
Lemma convertChunk_fields (this : EttvApi) (chunk : string) :
  let line := split "|" chunk in
  let torrent :=
    {| hash := nth_error line 0; title := nth_error line 1;
       category := nth_error line 2; link := nth_error line 3;
       magnet := None |} in
  _convertChunk this chunk =
  {| hash := nth_error line 0; title := nth_error line 1;
     category := nth_error line 2; link := nth_error line 3;
     magnet := Some ("$magnet:?" ++ magnetQuery this torrent) |}.
Proof. reflexivity. Qed.

(** The magnet only looks at the hash, the title and the trackers. *)
Lemma magnetQuery_ext (this this' : EttvApi) (t t' : Torrent) :
  _trackers this = _trackers this' ->
  hash t = hash t' -> title t = title t' ->
  magnetQuery this t = magnetQuery this' t'.
Proof. unfold magnetQuery. now intros -> -> ->. Qed.

Lemma convertChunk_trackers (this this' : EttvApi) (chunk : string) :
  _trackers this = _trackers this' ->
  _convertChunk this chunk = _convertChunk this' chunk.
Proof.
  intros H. rewrite !convertChunk_fields. cbv zeta.
  now rewrite (magnetQuery_ext this this' _ _ H eq_refl eq_refl).
Qed.

(** The records of a text are those of its non-empty lines, in order. *)
Lemma convertToTorrents_lines (this : EttvApi) (lines : list string) :
  lines <> [] ->
  Forall (fun l => has_char "010" l = false) lines ->
  _convertToTorrents this (join "010" lines) =
  map (_convertChunk this) (filter nonempty lines).
Proof.
  intros Hne Hall. unfold _convertToTorrents.
  now rewrite split_join.
Qed.

(** Parsing two texts written one under the other. *)
Lemma convertToTorrents_app (this : EttvApi) (a b : string) :
  _convertToTorrents this (a ++ String "010" b) =
  (_convertToTorrents this a ++ _convertToTorrents this b)%list.
Proof.
  unfold _convertToTorrents.
  now rewrite split_app, filter_app, map_app.
Qed.

Lemma convertToTorrents_one (this : EttvApi) (line : string) :
  line <> EmptyString -> has_char "010" line = false ->
  _convertToTorrents this line = [_convertChunk this line].
Proof.
  intros Hne Hnl. unfold _convertToTorrents.
  rewrite split_one by assumption. simpl. unfold nonempty.
  destruct (String.eqb_spec line EmptyString); [contradiction | reflexivity].
Qed.

(** A text of line feeds only has only empty lines. *)
Lemma split_only_separators (sep : ascii) (s : string) :
  all_chars (fun c => Ascii.eqb c sep) s = true ->
  Forall (fun line => line = EmptyString) (split sep s).
Proof.
  induction s as [|c s IH]; simpl.
  - intros _. now constructor.
  - intros H. apply andb_true_iff in H as [Hc Hs]. rewrite Hc.
    constructor; [reflexivity | now apply IH].
Qed.

Lemma filter_nonempty_blank (lines : list string) :
  Forall (fun line => line = EmptyString) lines ->
  filter nonempty lines = [].
Proof.
  induction 1 as [|l ls Hl _ IH]; [reflexivity|].
  subst l. simpl. exact IH.
Qed.

End ParserFacts.

(** * The magnet builder *)

Import StringFacts QueryFacts ParserFacts.

(** The two digits of a [%XX] form give the byte back. *)
Lemma hexTable_value (c : ascii) :
  match hexTable c with
  | String _ (String d1 (String d2 _)) =>
      ascii_of_nat (16 * hexValue d1 + hexValue d2)
  | _ => Ascii.zero
  end = c.
Proof. destruct c as [[] [] [] [] [] [] [] []]; reflexivity. Qed.

Lemma hexTable_injective (c1 c2 : ascii) :
  hexTable c1 = hexTable c2 -> c1 = c2.
Proof.
  intros H. rewrite <- (hexTable_value c1), H. apply hexTable_value.
Qed.

Lemma hexTable_strip (c1 c2 : ascii) (r1 r2 : string) :
  hexTable c1 ++ r1 = hexTable c2 ++ r2 -> c1 = c2 /\ r1 = r2.
Proof.
  intros H. split.
  - apply hexTable_injective. unfold hexTable in H |- *.
    cbn [append] in H. injection H as H1 H2 _.
    f_equal. f_equal; [exact H1|]. f_equal. exact H2.
  - unfold hexTable in H. cbn [append] in H. now injection H.
Qed.

Lemma qsEscape_injective (s1 : string) :
  forall s2, qsEscape s1 = qsEscape s2 -> s1 = s2.
Proof.
  induction s1 as [|a s1 IH]; intros [|b s2]; cbn [qsEscape].
  - reflexivity.
  - destruct (noEscape b); discriminate.
  - destruct (noEscape a); discriminate.
  - destruct (noEscape a) eqn:Ea, (noEscape b) eqn:Eb; intros H.
    + cbn [append] in H. injection H as -> H. f_equal. now apply IH.
    + unfold hexTable in H. cbn [append] in H. injection H as -> _.
      vm_compute in Ea. discriminate Ea.
    + unfold hexTable in H. cbn [append] in H. injection H as <- _.
      vm_compute in Eb. discriminate Eb.
    + apply hexTable_strip in H as [-> H]. f_equal. now apply IH.
Qed.

Lemma append_cancel_l (p a b : string) : p ++ a = p ++ b -> a = b.
Proof.
  induction p as [|c p IH]; simpl; intros H; [exact H|].
  injection H as H. now apply IH.
Qed.

(** Every line has a hash. *)
Lemma hash_of_line (this : EttvApi) (chunk : string) :
  exists h, hash (_convertChunk this chunk) = Some h.
Proof.
  rewrite convertChunk_fields. cbv zeta. cbn [hash].
  destruct (split "|" chunk) as [|h l] eqn:E;
    [now apply split_not_nil in E|].
  now exists h.
Qed.

(** The magnet of a converted line, and the query string it carries. *)
Lemma convertChunk_magnet (this : EttvApi) (chunk : string) :
  let torrent := _convertChunk this chunk in
  magnet torrent = Some ("$magnet:?" ++ magnetQuery this torrent).
Proof. reflexivity. Qed.

Example magnet_without_trackers :
  magnet (_convertChunk (constructor None (Some [])) "abc123|Some Title") =
  Some "$magnet:?xt=urn%3Abtih%3Aabc123&dn=Some%20Title".
Proof. reflexivity. Qed.

Example magnet_with_two_trackers :
  magnet (_convertChunk (constructor None (Some ["udp://a:1"; "b"]))
                        "abc|T|C|L|more") =
  Some "$magnet:?xt=urn%3Abtih%3Aabc&dn=T&tr=udp%3A%2F%2Fa%3A1&tr=b".
Proof. reflexivity. Qed.

Example first_default_tracker_escaped :
  option_map qsEscape (hd_error defaultTrackers) =
  Some "udp%253A%252F%252Ftracker.coppersurfer.tk%3A6969%2Fannounce%26".
Proof. reflexivity. Qed.

(** C1.  For every line and every list of trackers, the query string of the
    magnet reads back as one [xt] parameter made from the hash of the
    record (the escaped [urn:btih:] followed by the escaped hash, from
    which the hash can be read back), one [dn] parameter made from the
    title of the record (the escaped title, nothing when there is none),
    and then one [tr] parameter per configured tracker, in the order of
    the list: as many [tr] keys as there are trackers. *)
Theorem magnet_parameters (this : EttvApi) (chunk : string) :
  let torrent := _convertChunk this chunk in
  exists qs h : string,
    magnet torrent = Some ("$magnet:?" ++ qs) /\
    hash torrent = Some h /\
    params qs =
      ("xt", "urn%3Abtih%3A" ++ qsEscape h)
        :: ("dn", match title torrent with
                  | Some t => qsEscape t
                  | None => EmptyString
                  end)
        :: map (fun tracker => ("tr", qsEscape tracker)) (_trackers this) /\
    values_of "xt" (params qs) = ["urn%3Abtih%3A" ++ qsEscape h] /\
    values_of "dn" (params qs) =
      [match title torrent with
       | Some t => qsEscape t
       | None => EmptyString
       end] /\
    values_of "tr" (params qs) = map qsEscape (_trackers this) /\
    List.length (values_of "tr" (params qs)) = List.length (_trackers this) /\
    (forall h', qsEscape h' = qsEscape h -> h' = h) /\
    (forall t t', title torrent = Some t -> qsEscape t' = qsEscape t -> t' = t).
Proof.
  intros torrent.
  destruct (hash_of_line this chunk) as [h Hh]. fold torrent in Hh.
  exists (magnetQuery this torrent), h.
  split; [apply convertChunk_magnet|]. split; [exact Hh|].
  pose proof (tr_values_magnetQuery this torrent) as Htr.
  assert (Hdn : encodeStringified (toPrimitive (title torrent))
                = match title torrent with
                  | Some t => qsEscape t
                  | None => EmptyString
                  end).
  { destruct (title torrent); [apply encodeStringified_Str | reflexivity]. }
  rewrite params_magnetQuery in *. rewrite Hh, Hdn in *.
  cbn [toString] in *. rewrite qsEscape_app in *.
  change (qsEscape "urn:btih:") with "urn%3Abtih%3A" in *.
  split; [reflexivity|].
  split.
  { set (xt := "urn%3Abtih%3A" ++ qsEscape h).
    change ([xt] ++ values_of "xt" (map (fun t => ("tr", qsEscape t))
                                        (_trackers this))
            = [xt])%list.
    now rewrite values_of_other. }
  split.
  { set (dn := match title torrent with
               | Some t => qsEscape t
               | None => EmptyString
               end).
    change ([dn] ++ values_of "dn" (map (fun t => ("tr", qsEscape t))
                                        (_trackers this))
            = [dn])%list.
    now rewrite values_of_other. }
  split; [exact Htr|].
  split; [rewrite Htr; apply length_map|].
  split.
  - intros h' Heq. now apply qsEscape_injective.
  - intros t t' _ Heq. now apply qsEscape_injective.
Qed.

(** C2.  What [_convertChunk] writes: the magnet of every line is the
    query string behind the token [$magnet:?], which starts with a dollar
    sign, so it neither starts with [magnet:?] nor is [magnet:?] followed
    by the query string. *)
Theorem magnet_starts_with_dollar (this : EttvApi) (chunk : string) :
  let torrent := _convertChunk this chunk in
  let qs := magnetQuery this torrent in
  magnet torrent = Some ("$magnet:?" ++ qs) /\
  startsWith "magnet:?" ("$magnet:?" ++ qs) = false /\
  magnet torrent <> Some ("magnet:?" ++ qs).
Proof.
  intros torrent qs. split; [reflexivity|]. split; [reflexivity|].
  change (magnet torrent) with (Some ("$magnet:?" ++ qs)). discriminate.
Qed.

(** C3.  What [_convertChunk] writes for a client with the default
    trackers: the [tr] values of every magnet are the default trackers
    escaped once more ([%3A] becomes [%253A], [%2F] becomes [%252F]), and
    no default tracker is the value of a [tr] parameter. *)
Theorem default_trackers_escaped_again (baseUrl : option string)
        (chunk : string) :
  let this := constructor baseUrl None in
  exists qs : string,
    magnet (_convertChunk this chunk) = Some ("$magnet:?" ++ qs) /\
    values_of "tr" (params qs) = map qsEscape defaultTrackers /\
    forall tracker, In tracker defaultTrackers ->
      includes "%3A%2F%2F" tracker = true /\
      qsEscape tracker <> tracker /\
      includes "%253A%252F%252F" (qsEscape tracker) = true /\
      includes "%3A%2F%2F" (qsEscape tracker) = false /\
      ~ In tracker (values_of "tr" (params qs)).
Proof.
  intros this.
  exists (magnetQuery this (_convertChunk this chunk)).
  pose proof (tr_values_magnetQuery this (_convertChunk this chunk)) as Htr.
  change (_trackers this) with defaultTrackers in Htr.
  split; [apply convertChunk_magnet|]. split; [exact Htr|].
  rewrite Htr.
  assert (Hall : forallb
            (fun t => includes "%3A%2F%2F" t
                      && negb (String.eqb (qsEscape t) t)
                      && includes "%253A%252F%252F" (qsEscape t)
                      && negb (includes "%3A%2F%2F" (qsEscape t))
                      && negb (existsb (String.eqb t)
                                       (map qsEscape defaultTrackers)))
            defaultTrackers = true) by (vm_compute; reflexivity).
  rewrite forallb_forall in Hall.
  intros tracker Hin. specialize (Hall tracker Hin).
  repeat (apply andb_true_iff in Hall as [Hall ?]).
  repeat split.
  - assumption.
  - intros Heq. rewrite Heq, String.eqb_refl in *. discriminate.
  - assumption.
  - now apply negb_true_iff.
  - intros Hin'.
    assert (existsb (String.eqb tracker) (map qsEscape defaultTrackers) = true).
    { apply existsb_exists. exists tracker. split; [exact Hin' | apply String.eqb_refl]. }
    match goal with H : negb (existsb _ _) = true |- _ =>
      apply negb_true_iff in H; congruence end.
Qed.

(** * The line parser *)

(** The [xt] value starts with the escaped form of [urn:btih:]. *)
Lemma qsEscape_urn (h : string) :
  qsEscape ("urn:btih:" ++ h) = "urn%3Abtih%3A" ++ qsEscape h.
Proof. now rewrite qsEscape_app. Qed.

(** Four fields, written with ['|'] between them, make a line of text. *)
Lemma four_fields_line (H T C L : string) :
  is_field H = true -> is_field T = true ->
  is_field C = true -> is_field L = true ->
  let line := H ++ "|" ++ T ++ "|" ++ C ++ "|" ++ L in
  line <> EmptyString /\ has_char "010" line = false /\ split "|" line = [H; T; C; L].
Proof.
  intros HH HT HC HL line. unfold is_field in *.
  apply andb_true_iff in HH as [HH HH'], HT as [HT HT'],
                         HC as [HC HC'], HL as [HL HL'].
  rewrite negb_true_iff in *.
  repeat split.
  - unfold line. destruct H; discriminate.
  - unfold line. rewrite !has_char_app, HH', HT', HC', HL'. reflexivity.
  - change line with (join "|" [H; T; C; L]).
    apply split_join; [discriminate | now repeat constructor].
Qed.

(** C4, as stated, fails on the line [abc|Title|Cat|Link]: its one record
    has the four fields, but its magnet holds [urn%3Abtih%3Aabc], not
    [urn:btih:abc]. *)
Lemma single_line_magnet_has_no_plain_urn :
  ~ (exists (t : Torrent) (m : string),
        _convertToTorrents (constructor None None) "abc|Title|Cat|Link" = [t] /\
        hash t = Some "abc" /\ title t = Some "Title" /\
        category t = Some "Cat" /\ link t = Some "Link" /\
        magnet t = Some m /\ m <> EmptyString /\ Substring "urn:btih:abc" m).
Proof.
  intros (t & m & Ht & _ & _ & _ & _ & Hm & _ & Hsub).
  assert (Hone : _convertToTorrents (constructor None None) "abc|Title|Cat|Link"
                 = [_convertChunk (constructor None None) "abc|Title|Cat|Link"])
    by reflexivity.
  rewrite Hone in Ht. injection Ht as <-.
  revert Hsub. apply includes_false.
  assert (Hinc : option_map (includes "urn:btih:abc")
                   (magnet (_convertChunk (constructor None None)
                                          "abc|Title|Cat|Link"))
                 = Some false) by (vm_compute; reflexivity).
  rewrite Hm in Hinc. simpl in Hinc. now injection Hinc.
Qed.

(** C4, amended.  A text of one line [H|T|C|L] of four fields gives exactly
    one record, with [hash = H], [title = T], [category = C], [link = L]
    and a non-empty magnet that holds [urn%3Abtih%3A] followed by the
    percent-encoded [H]: by [H] itself when [H] is made of unreserved
    characters, as a hexadecimal hash is. *)
Theorem single_line_record (this : EttvApi) (H T C L : string) :
  is_field H = true -> is_field T = true ->
  is_field C = true -> is_field L = true ->
  exists m : string,
    _convertToTorrents this (H ++ "|" ++ T ++ "|" ++ C ++ "|" ++ L) =
      [ {| hash := Some H; title := Some T; category := Some C;
           link := Some L; magnet := Some m |} ] /\
    m <> EmptyString /\
    Substring ("urn%3Abtih%3A" ++ qsEscape H) m /\
    (all_chars noEscape H = true -> Substring ("urn%3Abtih%3A" ++ H) m).
Proof.
  intros HH HT HC HL.
  destruct (four_fields_line H T C L HH HT HC HL) as (Hne & Hnl & Hsplit).
  set (line := H ++ "|" ++ T ++ "|" ++ C ++ "|" ++ L) in *.
  set (torrent := {| hash := Some H; title := Some T; category := Some C;
                     link := Some L; magnet := None |}).
  exists ("$magnet:?" ++ magnetQuery this torrent).
  assert (Hsub : Substring ("urn%3Abtih%3A" ++ qsEscape H)
                           ("$magnet:?" ++ magnetQuery this torrent)).
  { rewrite magnetQuery_join. unfold magnetParts. rewrite join_cons.
    cbn [hash torrent toString]. rewrite qsEscape_urn.
    eexists "$magnet:?xt=", _. rewrite !append_assoc. reflexivity. }
  repeat split.
  - rewrite convertToTorrents_one by assumption.
    rewrite convertChunk_fields. cbv zeta. rewrite Hsplit. reflexivity.
  - discriminate.
  - exact Hsub.
  - intros Hun. now rewrite <- (qsEscape_unreserved H Hun) at 1.
Qed.

Lemma single_line_record_witness :
  exists m : string,
    _convertToTorrents (constructor None (Some ["udp://t.example:80"]))
                       "0a1b2c|Some Title|Movies|https://x.example/t/1" =
      [ {| hash := Some "0a1b2c"; title := Some "Some Title";
           category := Some "Movies";
           link := Some "https://x.example/t/1"; magnet := Some m |} ] /\
    m <> EmptyString /\
    Substring "urn%3Abtih%3A0a1b2c" m.
Proof.
  destruct (single_line_record
              (constructor None (Some ["udp://t.example:80"]))
              "0a1b2c" "Some Title" "Movies" "https://x.example/t/1"
              eq_refl eq_refl eq_refl eq_refl)
    as (m & Hrec & Hne & _ & Hsub).
  exists m. split; [exact Hrec|]. split; [exact Hne|].
  apply Hsub. reflexivity.
Defined.

(** Every line is its fields written with ['|'] between them, so the
    statements below about [join "|" fields] speak of every line. *)
Lemma line_of_fields (chunk : string) :
  exists fields : list string,
    fields <> [] /\
    Forall (fun f => has_char "|" f = false) fields /\
    chunk = join "|" fields.
Proof.
  exists (split "|" chunk).
  split; [apply split_not_nil|].
  split; [apply split_pieces | symmetry; apply join_split].
Qed.

Lemma Forall_firstn_keeps {A : Type} (P : A -> Prop) (l : list A) :
  forall n, Forall P l -> Forall P (firstn n l).
Proof.
  induction l as [|x l IH]; intros [|n] Hl; simpl; try constructor.
  - now inversion Hl.
  - apply IH. now inversion Hl.
Qed.

(** C5.  A line of any number of fields is converted without an error: the
    fields present go to [hash], [title], [category], [link] by position, an
    attribute with no field is [undefined], and the fields after the fourth
    change nothing. *)
Theorem short_line_record (this : EttvApi) (fields : list string) :
  fields <> [] ->
  Forall (fun f => has_char "|" f = false) fields ->
  let torrent := _convertChunk this (join "|" fields) in
  hash torrent = nth_error fields 0 /\
  title torrent = nth_error fields 1 /\
  category torrent = nth_error fields 2 /\
  link torrent = nth_error fields 3 /\
  (List.length fields < 4 -> link torrent = None) /\
  (List.length fields < 3 -> category torrent = None) /\
  (List.length fields < 2 -> title torrent = None) /\
  torrent = _convertChunk this (join "|" (firstn 4 fields)).
Proof.
  intros Hne Hall torrent.
  assert (Hfields : split "|" (join "|" fields) = fields)
    by now apply split_join.
  assert (Hfirst : split "|" (join "|" (firstn 4 fields)) = firstn 4 fields).
  { apply split_join.
    - destruct fields; [congruence | discriminate].
    - now apply Forall_firstn_keeps. }
  unfold torrent. rewrite !convertChunk_fields. cbv zeta.
  rewrite Hfields, Hfirst. cbn [hash title category link].
  repeat split.
  - intros Hlen. apply nth_error_None. lia.
  - intros Hlen. apply nth_error_None. lia.
  - intros Hlen. apply nth_error_None. lia.
  - rewrite !nth_error_firstn. reflexivity.
Qed.

Lemma short_line_record_witness :
  let torrent := _convertChunk (constructor None None) "abc|Title" in
  hash torrent = Some "abc" /\ title torrent = Some "Title" /\
  category torrent = None /\ link torrent = None.
Proof.
  pose proof (short_line_record (constructor None None) ["abc"; "Title"]
                ltac:(discriminate)
                ltac:(repeat constructor))
    as (Hh & Ht & Hc & Hl & _).
  cbv zeta. change (join "|" ["abc"; "Title"]) with "abc|Title" in *.
  rewrite Hh, Ht, Hc, Hl. repeat split.
Defined.

(** C6.  A text of blank lines only, that is of line feeds only, gives no
    record. *)
Theorem blank_text_no_record (this : EttvApi) (res : string) :
  all_chars (fun c => Ascii.eqb c "010") res = true ->
  _convertToTorrents this res = [].
Proof.
  intros Hblank. unfold _convertToTorrents.
  rewrite filter_nonempty_blank; [reflexivity|].
  now apply split_only_separators.
Qed.

Lemma blank_text_no_record_witness :
  _convertToTorrents (constructor None None)
                     (String "010" (String "010" (String "010" EmptyString))) = [].
Proof.
  apply (blank_text_no_record (constructor None None)
           (String "010" (String "010" (String "010" EmptyString)))).
  reflexivity.
Defined.

(** C8.  Parsing depends on the text and on the trackers of the client
    only, and it keeps the lines as they come: the records are the
    conversions of the non-empty lines, in their order, one per line, equal
    lines included. *)
Theorem parsing_follows_lines (this this' : EttvApi) (lines : list string) :
  lines <> [] ->
  Forall (fun l => has_char "010" l = false) lines ->
  _trackers this = _trackers this' ->
  _convertToTorrents this (join "010" lines) =
    map (_convertChunk this) (filter nonempty lines) /\
  _convertToTorrents this' (join "010" lines) =
    _convertToTorrents this (join "010" lines) /\
  List.length (_convertToTorrents this (join "010" lines)) =
    List.length (filter nonempty lines) /\
  (forall i line, nth_error (filter nonempty lines) i = Some line ->
     nth_error (_convertToTorrents this (join "010" lines)) i =
       Some (_convertChunk this line) /\
     hash (_convertChunk this line) = hd_error (split "|" line)).
Proof.
  intros Hne Hall Htr.
  rewrite !convertToTorrents_lines by assumption.
  split; [reflexivity|]. split; [|split].
  - apply map_ext. intros line. symmetry. now apply convertChunk_trackers.
  - apply length_map.
  - intros i line Hi. split.
    + rewrite nth_error_map, Hi. reflexivity.
    + rewrite convertChunk_fields. cbn [hash].
      destruct (split "|" line); reflexivity.
Qed.

Lemma parsing_follows_lines_witness :
  _convertToTorrents (constructor None (Some []))
    (join "010" ["b|2"; EmptyString; "a|1"; "b|2"]) =
  map (_convertChunk (constructor None (Some []))) ["b|2"; "a|1"; "b|2"] /\
  _convertToTorrents (constructor (Some "https://mirror.example/") (Some []))
    (join "010" ["b|2"; EmptyString; "a|1"; "b|2"]) =
  _convertToTorrents (constructor None (Some []))
    (join "010" ["b|2"; EmptyString; "a|1"; "b|2"]).
Proof.
  pose proof (parsing_follows_lines
                (constructor None (Some []))
                (constructor (Some "https://mirror.example/") (Some []))
                ["b|2"; EmptyString; "a|1"; "b|2"]
                ltac:(discriminate)
                ltac:(repeat constructor)
                eq_refl) as (Hmap & Hsame & _).
  split; [exact Hmap | exact Hsame].
Defined.

(** White space is neither a field separator nor a line feed. *)
Lemma whitespace_line (w : string) :
  all_chars isWhitespace w = true ->
  has_char "|" w = false /\ has_char "010" w = false.
Proof.
  intros Hw. split;
    now apply all_chars_has_char with (p := isWhitespace).
Qed.

(** C9.  A line is dropped only when it is the empty string: a line of
    white space only, alone or between other lines, is converted, and the
    hash of its record is that white space. *)
Theorem whitespace_line_kept (this : EttvApi) (w above below : string) :
  w <> EmptyString ->
  all_chars isWhitespace w = true ->
  _convertToTorrents this w = [_convertChunk this w] /\
  hash (_convertChunk this w) = Some w /\
  _convertToTorrents this (above ++ String "010" (w ++ String "010" below)) =
    (_convertToTorrents this above
       ++ _convertChunk this w :: _convertToTorrents this below)%list /\
  (forall line, has_char "010" line = false ->
     (_convertToTorrents this line = [] <-> line = EmptyString)).
Proof.
  intros Hne Hw. destruct (whitespace_line w Hw) as [Hbar Hnl].
  assert (Hone : _convertToTorrents this w = [_convertChunk this w])
    by now apply convertToTorrents_one.
  split; [exact Hone|]. split; [|split].
  - rewrite convertChunk_fields. cbn [hash].
    now rewrite split_one.
  - now rewrite !convertToTorrents_app, Hone.
  - intros line Hline. split.
    + intros Hnone. destruct line as [|c line]; [reflexivity|].
      rewrite convertToTorrents_one in Hnone;
        [discriminate | discriminate | assumption].
    + now intros ->.
Qed.

Lemma whitespace_line_kept_witness :
  _convertToTorrents (constructor None None) " " =
    [_convertChunk (constructor None None) " "] /\
  hash (_convertChunk (constructor None None) " ") = Some " ".
Proof.
  pose proof (whitespace_line_kept (constructor None None) " " EmptyString EmptyString
                ltac:(discriminate) eq_refl) as (Hone & Hhash & _).
  split; [exact Hone | exact Hhash].
Defined.

(** Read an attribute of a converted line whose pieces are known. *)
Ltac read_field Hsplit :=
  match goal with
  | torrent := _convertChunk _ _ |- _ => unfold torrent
  | _ => idtac
  end;
  rewrite convertChunk_fields; cbv zeta;
  cbn [hash title category link]; rewrite Hsplit; reflexivity.

(** C10.  Every line gets a magnet, and for a line of one field (no ['|'])
    the title is [undefined] and the magnet still has its [dn] parameter,
    with the empty value, between [xt] and the trackers. *)
Theorem one_field_line_magnet (this : EttvApi) :
  (forall chunk, exists m,
      magnet (_convertChunk this chunk) = Some m /\ m <> EmptyString) /\
  (forall chunk, has_char "|" chunk = false ->
     let torrent := _convertChunk this chunk in
     hash torrent = Some chunk /\ title torrent = None /\
     category torrent = None /\ link torrent = None /\
     exists qs : string,
       magnet torrent = Some ("$magnet:?" ++ qs) /\
       qs = join "&" (("xt=urn%3Abtih%3A" ++ qsEscape chunk)
                        :: "dn="
                        :: map (fun tracker => "tr=" ++ qsEscape tracker)
                               (_trackers this)) /\
       nth_error (params qs) 1 = Some ("dn", EmptyString) /\
       values_of "dn" (params qs) = [EmptyString]).
Proof.
  split.
  - intros chunk. eexists. split; [apply convertChunk_magnet | discriminate].
  - intros chunk Hbar torrent.
    assert (Hsplit : split "|" chunk = [chunk]) by now apply split_one.
    assert (Hhash : hash torrent = Some chunk) by read_field Hsplit.
    assert (Htitle : title torrent = None) by read_field Hsplit.
    split; [exact Hhash|]. split; [exact Htitle|].
    split; [read_field Hsplit|]. split; [read_field Hsplit|].
    exists (magnetQuery this torrent).
    split; [apply convertChunk_magnet|].
    split; [|split].
    + rewrite magnetQuery_join. unfold magnetParts.
      rewrite Hhash, Htitle.
      cbn [toString toPrimitive encodeStringified].
      now rewrite qsEscape_urn.
    + rewrite params_magnetQuery, Htitle. reflexivity.
    + rewrite params_magnetQuery, Htitle.
      change ([EmptyString] ++ values_of "dn"
                        (map (fun t => ("tr", qsEscape t)) (_trackers this))
              = [EmptyString])%list.
      now rewrite values_of_other.
Qed.

Lemma one_field_line_magnet_witness :
  let torrent := _convertChunk (constructor None (Some ["t"])) "abc" in
  title torrent = None /\
  magnet torrent = Some "$magnet:?xt=urn%3Abtih%3Aabc&dn=&tr=t".
Proof.
  destruct (one_field_line_magnet (constructor None (Some ["t"])))
    as [_ Hone].
  destruct (Hone "abc" eq_refl) as (_ & Htitle & _ & _ & qs & Hm & Hqs & _).
  split; [exact Htitle|].
  rewrite Hm, Hqs. reflexivity.
Defined.

(** * The fetcher *)

(** A settled promise stays as it is, whatever comes after. *)
Lemma rejected_stays (evs : list event) :
  forall (st : getState) (e : Error),
    settled st = Rejected e ->
    settled (fold_left deliver evs st) = Rejected e.
Proof.
  induction evs as [|ev evs IH]; intros st e Hst; [exact Hst|].
  simpl. apply IH.
  destruct ev; simpl; try destruct (listening st); simpl;
    rewrite ?Hst; try reflexivity; exact Hst.
Qed.

(** The chunks that come out of the decompressor are added to [data]. *)
Lemma data_accumulates (chunks : list string) :
  forall st : getState,
    listening st = true ->
    fold_left deliver (map GunzipData chunks) st =
    {| listening := true; data := fold_left append chunks (data st);
       settled := settled st; unhandled := unhandled st |}.
Proof.
  induction chunks as [|c cs IH]; intros st Hl.
  - simpl. destruct st; simpl in *. now subst.
  - simpl. rewrite Hl. now rewrite IH.
Qed.

(** A body that does not decompress rejects the promise, with one error,
    and nothing that follows resolves it. *)
Lemma corrupt_body_rejects (URL_href : string -> string -> string)
      (this : EttvApi) (chunks : list string) (err : string)
      (later : list event) :
  getDaily (fun _ => Response :: map GunzipData chunks
                       ++ GunzipError err :: later)%list
           URL_href this
  = Rejected {| message := err |}.
Proof.
  unfold getDaily, _getFile, _get. cbn [fold_left].
  rewrite fold_left_app, data_accumulates by reflexivity.
  cbn [fold_left deliver listening settled initialState reject].
  now rewrite rejected_stays with (e := {| message := err |}).
Qed.

(** C7.  What [_get] does when the connection is refused: the error is an
    ['error'] event on the request, which has no listener, so the promise
    of [getDaily] and of [getFull] is never rejected: it stays pending. *)
Theorem refused_connection_stays_pending
        (URL_href : string -> string -> string) (this : EttvApi)
        (err : string) :
  getDaily (fun _ => [RequestError err]) URL_href this = Pending /\
  getFull (fun _ => [RequestError err]) URL_href this = Pending /\
  (forall e, getDaily (fun _ => [RequestError err]) URL_href this
             <> Rejected e).
Proof.
  repeat split. discriminate.
Qed.

(** * Further properties of the parser *)

Lemma split_length (sep : ascii) (s : string) :
  List.length (split sep s) = S (count_char sep s).
Proof.
  induction s as [|c s IH]; simpl; [reflexivity|].
  destruct (Ascii.eqb c sep); simpl; [now rewrite IH|].
  destruct (split sep s) as [|p ps] eqn:E; [now apply split_not_nil in E|].
  exact IH.
Qed.

(** A piece holds no character its string does not hold. *)
Lemma split_pieces_lack (c sep : ascii) (s : string) :
  has_char c s = false ->
  Forall (fun p => has_char c p = false) (split sep s).
Proof.
  induction s as [|a s IH]; simpl; intros H.
  - now repeat constructor.
  - apply orb_false_iff in H as [Ha Hs]. specialize (IH Hs).
    destruct (Ascii.eqb a sep).
    + now constructor.
    + destruct (split sep s) as [|p ps]; simpl.
      * constructor; [simpl; now rewrite Ha | constructor].
      * inversion IH; subst.
        constructor; [simpl; now rewrite Ha, orb_false_l | assumption].
Qed.

(** X10.  Splitting loses nothing: the pieces hold no separator, there is one
    more piece than there are separators, and joining them gives the string
    back. *)
Theorem split_loses_nothing (sep : ascii) (s : string) :
  join sep (split sep s) = s /\
  Forall (fun p => has_char sep p = false) (split sep s) /\
  List.length (split sep s) = S (count_char sep s).
Proof.
  split; [apply join_split|].
  split; [apply split_pieces | apply split_length].
Qed.

(** The defined attributes of a converted line are its first four
    pieces. *)
Lemma definedFields_convertChunk (this : EttvApi) (chunk : string) :
  definedFields (_convertChunk this chunk) = firstn 4 (split "|" chunk).
Proof.
  rewrite convertChunk_fields. cbv zeta. unfold definedFields.
  cbn [hash title category link].
  destruct (split "|" chunk) as [|a [|b [|c [|d l]]]]; reflexivity.
Qed.

(** X1.  Every line has a hash, and it is the text of the line before its
    first ['|']: the hash holds no ['|'] and the line is the hash alone,
    or the hash, a ['|'] and the rest of the line.  An attribute is defined
    only when those before it are. *)
Theorem hash_always_defined (this : EttvApi) (chunk : string) :
  let torrent := _convertChunk this chunk in
  (exists h, hash torrent = Some h /\
             has_char "|" h = false /\
             ((chunk = h /\ count_char "|" chunk = 0) \/
              (exists rest, chunk = h ++ String "|" rest /\
                            0 < count_char "|" chunk)) /\
             startsWith h chunk = true /\
             (count_char "|" chunk = 0 -> h = chunk)) /\
  (title torrent = None -> category torrent = None) /\
  (category torrent = None -> link torrent = None).
Proof.
  intros torrent. unfold torrent. rewrite convertChunk_fields. cbv zeta.
  cbn [hash title category link].
  pose proof (join_split "|" chunk) as Hjoin.
  pose proof (split_pieces "|" chunk) as Hpieces.
  pose proof (split_length "|" chunk) as Hlen.
  destruct (split "|" chunk) as [|h rest] eqn:E;
    [now apply split_not_nil in E|].
  split; [|split].
  - exists h. split; [reflexivity|].
    split; [now inversion Hpieces|].
    assert (Hshape : (chunk = h /\ count_char "|" chunk = 0) \/
                     (exists rest', chunk = h ++ String "|" rest' /\
                                    0 < count_char "|" chunk)).
    { destruct rest as [|r rest].
      - left. simpl in Hjoin, Hlen. split; [now symmetry | lia].
      - right. exists (join "|" (r :: rest)).
        rewrite join_cons in Hjoin. simpl in Hlen.
        split; [now symmetry | lia]. }
    split; [exact Hshape|]. split.
    + apply startsWith_spec. destruct Hshape as [[-> _] | [rest' [-> _]]].
      * exists EmptyString. now rewrite append_nil_r.
      * now exists (String "|" rest').
    + intros Hnone. destruct Hshape as [[-> _] | [rest' [_ Hpos]]];
        [reflexivity | lia].
  - intros Hnone. apply nth_error_None in Hnone.
    apply nth_error_None. lia.
  - intros Hnone. apply nth_error_None in Hnone.
    apply nth_error_None. lia.
Qed.

(** A defined attribute is one of the pieces of its line. *)
Lemma attribute_is_piece (this : EttvApi) (chunk f : string) :
  In (Some f) [hash (_convertChunk this chunk);
               title (_convertChunk this chunk);
               category (_convertChunk this chunk);
               link (_convertChunk this chunk)] ->
  In f (split "|" chunk).
Proof.
  rewrite convertChunk_fields. cbv zeta. cbn [hash title category link].
  intros [H | [H | [H | [H | []]]]]; eapply nth_error_In; exact H.
Qed.

(** X2.  No attribute of a record of a dump holds a ['|'] or a line
    feed. *)
Theorem fields_hold_no_separator (this : EttvApi) (res : string)
        (t : Torrent) (f : string) :
  In t (_convertToTorrents this res) ->
  In (Some f) [hash t; title t; category t; link t] ->
  has_char "|" f = false /\ has_char "010" f = false.
Proof.
  unfold _convertToTorrents. intros Ht Hf.
  apply in_map_iff in Ht as (line & <- & Hline).
  apply filter_In in Hline as [Hline _].
  pose proof (split_pieces "010" res) as Hlines.
  rewrite Forall_forall in Hlines. specialize (Hlines line Hline).
  apply attribute_is_piece in Hf.
  split.
  - pose proof (split_pieces "|" line) as Hp.
    rewrite Forall_forall in Hp. now apply Hp.
  - pose proof (split_pieces_lack "010" "|" line Hlines) as Hp.
    rewrite Forall_forall in Hp. now apply Hp.
Qed.

Lemma fields_hold_no_separator_witness :
  has_char "|" "Some Title" = false /\ has_char "010" "Some Title" = false.
Proof.
  apply (fields_hold_no_separator
           (constructor None (Some []))
           "a1|Some Title|Movies"
           (_convertChunk (constructor None (Some [])) "a1|Some Title|Movies")
           "Some Title").
  - left. reflexivity.
  - right. left. reflexivity.
Defined.

(** X3.  Writing the defined attributes of a converted line with ['|'] between
    them gives the first four fields of the line: the line itself when it
    has at most four fields, that is at most three ['|']. *)
Theorem line_round_trip (this : EttvApi) (chunk : string) :
  toLine (_convertChunk this chunk) = join "|" (firstn 4 (split "|" chunk)) /\
  (count_char "|" chunk <= 3 -> toLine (_convertChunk this chunk) = chunk) /\
  (3 < count_char "|" chunk -> toLine (_convertChunk this chunk) <> chunk).
Proof.
  unfold toLine. rewrite definedFields_convertChunk.
  pose proof (split_length "|" chunk) as Hlen.
  split; [reflexivity|]. split.
  - intros Hfew. rewrite firstn_all2 by lia. apply join_split.
  - intros Hmany Heq.
    assert (Hfirst : split "|" (join "|" (firstn 4 (split "|" chunk)))
                     = firstn 4 (split "|" chunk)).
    { apply split_join.
      - destruct (split "|" chunk); [simpl in Hlen; lia | discriminate].
      - apply Forall_firstn_keeps, split_pieces. }
    rewrite Heq in Hfirst.
    apply (f_equal (@List.length string)) in Hfirst.
    rewrite length_firstn in Hfirst. lia.
Qed.

Lemma line_round_trip_witness :
  toLine (_convertChunk (constructor None None) "abc|Title") = "abc|Title" /\
  toLine (_convertChunk (constructor None None) "a|b|c|d|e") <> "a|b|c|d|e".
Proof.
  destruct (line_round_trip (constructor None None) "abc|Title")
    as (_ & Hfew & _).
  destruct (line_round_trip (constructor None None) "a|b|c|d|e")
    as (_ & _ & Hmany).
  split; [apply Hfew; simpl; lia | apply Hmany; simpl; lia].
Defined.

(** X4.  Parsing two texts set one under the other gives the records of the
    first followed by those of the second; a line feed at the end or at
    the start of a text, and a blank line inside it, change nothing. *)
Theorem parsing_distributes (this : EttvApi) (a b : string) :
  _convertToTorrents this (a ++ String "010" b) =
    (_convertToTorrents this a ++ _convertToTorrents this b)%list /\
  _convertToTorrents this (a ++ String "010" EmptyString) =
    _convertToTorrents this a /\
  _convertToTorrents this (String "010" a) = _convertToTorrents this a /\
  _convertToTorrents this (a ++ String "010" (String "010" b)) =
    _convertToTorrents this (a ++ String "010" b).
Proof.
  split; [apply convertToTorrents_app|]. split; [|split].
  - rewrite convertToTorrents_app. apply app_nil_r.
  - apply (convertToTorrents_app this EmptyString a).
  - rewrite !convertToTorrents_app.
    change (_convertToTorrents this (String "010" b))
      with (_convertToTorrents this (EmptyString ++ String "010" b)).
    rewrite convertToTorrents_app. reflexivity.
Qed.

(** X5.  A carriage return before the line feed is not removed: it stays at
    the end of the last field of the line. *)
Theorem carriage_return_stays (this : EttvApi) (H T C L : string) :
  is_field H = true -> is_field T = true ->
  is_field C = true -> is_field L = true ->
  exists m : string,
    _convertToTorrents this
      (H ++ "|" ++ T ++ "|" ++ C ++ "|" ++ L
         ++ String "013" (String "010" EmptyString)) =
    [ {| hash := Some H; title := Some T; category := Some C;
         link := Some (L ++ String "013" EmptyString);
         magnet := Some m |} ].
Proof.
  intros HH HT HC HL.
  assert (HL' : is_field (L ++ String "013" EmptyString) = true).
  { unfold is_field in *. rewrite !has_char_app.
    apply andb_true_iff in HL as [HL1 HL2].
    rewrite negb_true_iff in HL1, HL2. now rewrite HL1, HL2. }
  destruct (four_fields_line H T C (L ++ String "013" EmptyString)
                             HH HT HC HL') as (Hne & Hnl & Hsplit).
  cbv zeta in Hne, Hnl, Hsplit.
  assert (Htext : H ++ "|" ++ T ++ "|" ++ C ++ "|" ++ L
                    ++ String "013" (String "010" EmptyString)
                  = (H ++ "|" ++ T ++ "|" ++ C ++ "|"
                       ++ (L ++ String "013" EmptyString))
                      ++ String "010" EmptyString).
  { rewrite !append_assoc. reflexivity. }
  rewrite Htext, convertToTorrents_app.
  rewrite convertToTorrents_one by assumption.
  rewrite convertChunk_fields. cbv zeta. rewrite Hsplit.
  eexists. reflexivity.
Qed.

Lemma carriage_return_stays_witness :
  exists m : string,
    _convertToTorrents (constructor None (Some []))
      (String "a" (String "|" (String "b" (String "|" (String "c"
         (String "|" (String "d" (String "013"
            (String "010" EmptyString))))))))) =
    [ {| hash := Some "a"; title := Some "b"; category := Some "c";
         link := Some (String "d" (String "013" EmptyString));
         magnet := Some m |} ].
Proof.
  exact (carriage_return_stays (constructor None (Some []))
           "a" "b" "c" "d" eq_refl eq_refl eq_refl eq_refl).
Defined.

(** * Further properties of the query string *)

Lemma qsEscape_length_max (s : string) :
  String.length (qsEscape s) <= 3 * String.length s.
Proof.
  induction s as [|c s IH]; simpl; [lia|].
  rewrite length_append. destruct (noEscape c); simpl; lia.
Qed.

(** X9.  Escaping, with lengths counted in UTF-8 bytes of the string and
    in characters of its escaped form (which is ASCII): the result is made
    of unreserved characters and ['%'], it has at least as many characters
    as the string has bytes and at most three times as many, it is the
    string itself exactly when the string is made of unreserved
    characters, and two strings with the same escaped form are equal. *)
Theorem escape_properties (s : string) :
  all_chars escaped_char (qsEscape s) = true /\
  String.length s <= String.length (qsEscape s) <= 3 * String.length s /\
  (qsEscape s = s <-> all_chars noEscape s = true) /\
  (forall s', qsEscape s = qsEscape s' -> s = s').
Proof.
  split; [apply qsEscape_chars|].
  split; [split; [apply qsEscape_length | apply qsEscape_length_max]|].
  split; [|apply qsEscape_injective].
  split.
  - intros Heq. destruct (all_chars noEscape s) eqn:E; [reflexivity|].
    now apply qsEscape_changes in E.
  - apply qsEscape_unreserved.
Qed.

Lemma join_app (c : ascii) (a b : list string) :
  a <> [] -> b <> [] ->
  join c (a ++ b) = join c a ++ String c (join c b).
Proof.
  intros Ha Hb. induction a as [|x a IH]; [congruence|].
  destruct a as [|y a].
  - destruct b; [congruence | reflexivity].
  - change (join c (x :: (y :: a) ++ b)%list = join c (x :: y :: a)
                                                 ++ String c (join c b)).
    change ((y :: a) ++ b)%list with (y :: (a ++ b))%list.
    rewrite !join_cons.
    change (y :: (a ++ b))%list with ((y :: a) ++ b)%list.
    rewrite IH by discriminate. now rewrite append_assoc.
Qed.

Lemma join_length_pos (c : ascii) (es : list string) :
  es <> [] -> Forall (fun e => 0 < String.length e) es ->
  0 < String.length (join c es).
Proof.
  intros Hne Hall. destruct es as [|e es]; [congruence|].
  inversion Hall; subst. destruct es.
  - assumption.
  - rewrite join_cons, length_append. lia.
Qed.

(** [fields] holds the entries written so far; the next one goes behind
    a separator, unless it is the first. *)
Lemma addSep_join (es : list string) (x : string) :
  Forall (fun e => 0 < String.length e) es ->
  addSep (join "&" es) ++ x = join "&" (es ++ [x]).
Proof.
  intros Hall. destruct es as [|e es]; [reflexivity|].
  rewrite addSep_nonempty by (apply join_length_pos; [discriminate | exact Hall]).
  rewrite join_app by discriminate.
  now rewrite append_assoc.
Qed.

Lemma join_join_head (c : ascii) (es rest : list string) :
  es <> [] -> join c (join c es :: rest) = join c (es ++ rest).
Proof.
  intros Hne. destruct rest as [|r rest].
  - now rewrite app_nil_r.
  - rewrite join_cons, join_app by (assumption || discriminate).
    reflexivity.
Qed.

Lemma writeEntry_pos (e : string * string) :
  0 < String.length (writeEntry e).
Proof. unfold writeEntry. rewrite length_append. simpl. lia. Qed.

Lemma key_and_value (k : string) (p : primitive) :
  (encodeStringified (Str k) ++ eq_sign) ++ encodeStringified p =
  writeEntry (qsEscape k, encodeStringified p).
Proof.
  unfold writeEntry, eq_sign. rewrite encodeStringified_Str, append_assoc.
  reflexivity.
Qed.

(** One turn of the loop of [stringify] adds the entries of the key. *)
Lemma stringifyKey_join (es : list string) (kv : string * value) :
  Forall (fun e => 0 < String.length e) es ->
  stringifyKey (join "&" es) kv =
  join "&" (es ++ map writeEntry (entriesOf kv)).
Proof.
  intros Hall. destruct kv as [k [p | vs]]; cbn [stringifyKey entriesOf map].
  - rewrite <- key_and_value. now apply addSep_join.
  - destruct vs as [|v vs]; [now rewrite app_nil_r|].
    cbn [List.length Nat.eqb].
    rewrite stringifyArray_first, addSep_join by assumption.
    rewrite join_join_head by (destruct es; discriminate).
    rewrite <- app_assoc. cbn [map app]. rewrite key_and_value.
    do 3 f_equal. rewrite map_map. apply map_ext.
    intros x. apply key_and_value.
Qed.

Lemma stringify_from (obj : list (string * value)) :
  forall es : list string,
    Forall (fun e => 0 < String.length e) es ->
    fold_left stringifyKey obj (join "&" es) =
    join "&" (es ++ map writeEntry (flat_map entriesOf obj)).
Proof.
  induction obj as [|kv obj IH]; intros es Hall.
  - simpl. now rewrite app_nil_r.
  - cbn [fold_left flat_map]. rewrite stringifyKey_join by assumption.
    rewrite IH.
    + now rewrite map_app, app_assoc.
    + apply Forall_app. split; [assumption|].
      apply Forall_map, Forall_forall. intros e _. apply writeEntry_pos.
Qed.

(** The key of a written entry is what stands before its first ['=']. *)
Lemma cut_writeEntry (k v : string) :
  has_char "=" k = false -> cut (writeEntry (k, v)) = (k, v).
Proof.
  unfold writeEntry. cbn [fst snd].
  induction k as [|c k IH]; simpl; intros H; [reflexivity|].
  apply orb_false_iff in H as [Hc Hk].
  now rewrite Hc, (IH Hk).
Qed.

Lemma entriesOf_escaped (kv : string * value) :
  Forall (fun e => has_char "=" (fst e) = false
                   /\ has_char "&" (writeEntry e) = false)
         (entriesOf kv).
Proof.
  assert (Hone : forall k p,
             has_char "=" (qsEscape k) = false /\
             has_char "&" (writeEntry (qsEscape k, encodeStringified p))
             = false).
  { intros k p. split; [apply qsEscape_no_eq|].
    unfold writeEntry. cbn [fst snd].
    rewrite has_char_app, qsEscape_no_amp. simpl.
    apply encodeStringified_no_amp. }
  destruct kv as [k [p | vs]]; cbn [entriesOf].
  - constructor; [apply Hone | constructor].
  - apply Forall_map, Forall_forall. intros x _. apply Hone.
Qed.

(** X8.  For an object given by its properties in the order of
    [Object.keys], each value a string, [undefined] or an array of those
    (the kinds [_convertChunk] hands over), [stringify] writes the entries
    of the properties in that order with ['&'] between them, an array
    giving an entry per element and an empty array none; reading the
    result back gives the escaped keys with the escaped values. *)
Theorem stringify_writes_entries (obj : list (string * value)) :
  stringify obj = join "&" (map writeEntry (flat_map entriesOf obj)) /\
  params (stringify obj) = flat_map entriesOf obj.
Proof.
  assert (Hjoin : stringify obj
                  = join "&" (map writeEntry (flat_map entriesOf obj))).
  { unfold stringify.
    change EmptyString with (join "&" []) at 1.
    now rewrite stringify_from by constructor. }
  split; [exact Hjoin|]. rewrite Hjoin.
  assert (Hall : Forall (fun e => has_char "=" (fst e) = false
                                  /\ has_char "&" (writeEntry e) = false)
                        (flat_map entriesOf obj)).
  { apply Forall_flat_map, Forall_forall. intros kv _.
    apply entriesOf_escaped. }
  destruct (flat_map entriesOf obj) as [|e es] eqn:E; [reflexivity|].
  unfold params.
  assert (Hpos : 0 < String.length (join "&" (map writeEntry (e :: es)))).
  { apply join_length_pos; [discriminate|].
    apply Forall_map, Forall_forall. intros x _. apply writeEntry_pos. }
  destruct (join "&" (map writeEntry (e :: es))) eqn:J; [simpl in Hpos; lia|].
  rewrite <- J, split_join.
  - rewrite map_map. rewrite <- (map_id (e :: es)) at 2.
    apply map_ext_in. intros [k v] Hin.
    rewrite Forall_forall in Hall. destruct (Hall _ Hin) as [Hk _].
    now apply cut_writeEntry.
  - discriminate.
  - apply Forall_map. eapply Forall_impl; [|exact Hall].
    now intros x [_ Hx].
Qed.

(** * Further properties of the magnet *)

Lemma all_chars_weaken (p q : ascii -> bool) (s : string) :
  (forall c, p c = true -> q c = true) ->
  all_chars p s = true -> all_chars q s = true.
Proof.
  intros Hpq. induction s as [|c s IH]; simpl; [reflexivity|].
  intros H. apply andb_true_iff in H as [Hc Hs].
  now rewrite (Hpq c Hc), (IH Hs).
Qed.

Lemma all_chars_join (p : ascii -> bool) (c : ascii) (pieces : list string) :
  p c = true ->
  Forall (fun piece => all_chars p piece = true) pieces ->
  all_chars p (join c pieces) = true.
Proof.
  intros Hc. induction 1 as [|x l Hx Hl IH]; [reflexivity|].
  destruct l as [|y l]; [exact Hx|].
  rewrite join_cons, all_chars_app, Hx. cbn [all_chars andb].
  now rewrite Hc, IH.
Qed.

Lemma escaped_is_magnet_char (s : string) :
  all_chars magnet_char (qsEscape s) = true.
Proof.
  apply all_chars_weaken with (p := escaped_char); [|apply qsEscape_chars].
  intros c Hc. unfold magnet_char. now rewrite Hc.
Qed.

(** [undefined] and the empty string are escaped alike. *)
Lemma encoded_title (t : Torrent) :
  encodeStringified (toPrimitive (title t)) = qsEscape (titleText t).
Proof.
  unfold titleText. destruct (title t); [apply encodeStringified_Str|].
  reflexivity.
Qed.

(** X7.  A magnet is made of unreserved characters and of [% & = $ : ?] only,
    whatever the line and the trackers hold: it has no space, no line feed
    and no ['|'], and the only [':'] and ['?'] are those of its prefix. *)
Theorem magnet_alphabet (this : EttvApi) (chunk : string) :
  exists qs : string,
    magnet (_convertChunk this chunk) = Some ("$magnet:?" ++ qs) /\
    all_chars magnet_char ("$magnet:?" ++ qs) = true /\
    has_char " " qs = false /\ has_char "010" qs = false /\
    has_char "|" qs = false /\ has_char ":" qs = false /\
    has_char "?" qs = false /\ has_char "/" qs = false.
Proof.
  exists (magnetQuery this (_convertChunk this chunk)).
  split; [apply convertChunk_magnet|].
  set (torrent := _convertChunk this chunk).
  set (q := fun c => escaped_char c
                     || existsb (Ascii.eqb c) ["&"; "="]%char).
  assert (Hpart : forall key s,
             all_chars q key = true ->
             all_chars q (key ++ qsEscape s) = true).
  { intros key s Hkey. rewrite all_chars_app, Hkey.
    apply all_chars_weaken with (p := escaped_char);
      [|apply qsEscape_chars].
    intros c Hc. unfold q. now rewrite Hc. }
  assert (Hqs : all_chars q (magnetQuery this torrent) = true).
  { rewrite magnetQuery_join. apply all_chars_join; [reflexivity|].
    unfold magnetParts. rewrite encoded_title. repeat constructor.
    - now apply Hpart.
    - now apply Hpart.
    - apply Forall_map, Forall_forall. intros t _. now apply Hpart. }
  split.
  - rewrite all_chars_app.
    change (all_chars magnet_char "$magnet:?") with true.
    apply all_chars_weaken with (2 := Hqs).
    intros c Hc. unfold q in Hc. unfold magnet_char.
    apply orb_true_iff in Hc as [Hc | Hc]; [now rewrite Hc|].
    apply orb_true_iff. right. cbn [existsb] in *.
    destruct (Ascii.eqb c "&"); [reflexivity|].
    destruct (Ascii.eqb c "="); [reflexivity | discriminate].
  - repeat split;
      (eapply all_chars_has_char; [|exact Hqs]; reflexivity).
Qed.

(** X6.  Two lines get the same magnet from a client exactly when they have the
    same hash and the same title, an absent title counting as an empty
    one: the category, the link and further fields play no part, and
    different hashes never share a magnet. *)
Theorem same_magnet_same_hash_and_title (this : EttvApi)
        (chunk1 chunk2 : string) :
  let t1 := _convertChunk this chunk1 in
  let t2 := _convertChunk this chunk2 in
  magnet t1 = magnet t2 <-> hash t1 = hash t2 /\ titleText t1 = titleText t2.
Proof.
  intros t1 t2.
  destruct (hash_of_line this chunk1) as [h1 Hh1].
  destruct (hash_of_line this chunk2) as [h2 Hh2].
  fold t1 in Hh1. fold t2 in Hh2.
  assert (Hm : forall chunk,
             magnet (_convertChunk this chunk)
             = Some ("$magnet:?" ++ magnetQuery this (_convertChunk this chunk)))
    by (intros chunk; apply convertChunk_magnet).
  unfold t1 at 1, t2 at 1. rewrite !Hm. fold t1 t2.
  split.
  - intros Heq.
    assert (Hq : magnetQuery this t1 = magnetQuery this t2).
    { apply append_cancel_l with (p := "$magnet:?"). congruence. }
    apply (f_equal params) in Hq. rewrite !params_magnetQuery in Hq.
    assert (Hxt : qsEscape ("urn:btih:" ++ toString (hash t1))
                  = qsEscape ("urn:btih:" ++ toString (hash t2)))
      by congruence.
    assert (Hdn : encodeStringified (toPrimitive (title t1))
                  = encodeStringified (toPrimitive (title t2)))
      by congruence.
    rewrite !encoded_title in Hdn.
    apply qsEscape_injective in Hxt, Hdn.
    apply append_cancel_l in Hxt. rewrite Hh1, Hh2 in Hxt |- *.
    cbn [toString] in Hxt. now subst.
  - intros [Hh Ht]. rewrite !magnetQuery_join. unfold magnetParts.
    now rewrite !encoded_title, Hh, Ht.
Qed.

(** * Further properties of the fetcher *)

Lemma settled_stays (evs : list event) :
  forall st : getState,
    settled st <> Pending ->
    settled (fold_left deliver evs st) = settled st.
Proof.
  induction evs as [|ev evs IH]; intros st Hst; [reflexivity|].
  cbn [fold_left].
  assert (Hstep : settled (deliver st ev) = settled st).
  { destruct ev; cbn [deliver]; try destruct (listening st);
      cbn [settled]; try reflexivity;
      destruct (settled st); try reflexivity; congruence. }
  rewrite IH; [exact Hstep | now rewrite Hstep].
Qed.

Lemma fold_left_append (chunks : list string) :
  forall acc : string,
    fold_left append chunks acc = acc ++ concatenation chunks.
Proof.
  induction chunks as [|c cs IH]; intros acc; simpl.
  - now rewrite append_nil_r.
  - now rewrite IH, append_assoc.
Qed.

(** The state when the body has come through: the response, then the
    chunks of the decompressed text. *)
Lemma body_received (chunks : list string) :
  fold_left deliver (Response :: map GunzipData chunks) initialState =
  {| listening := true; data := concatenation chunks; settled := Pending;
     unhandled := [] |}.
Proof.
  cbn [fold_left deliver initialState settled unhandled].
  rewrite data_accumulates by reflexivity.
  cbn [data settled unhandled]. now rewrite fold_left_append.
Qed.

(** X11.  A dump that arrives whole: the promise of [_getFile] resolves with the
    records of the chunks written one after the other, whatever happens
    after the end of the stream. *)
Theorem fetch_resolves_with_records
        (network : string -> list event)
        (URL_href : string -> string -> string)
        (this : EttvApi) (file : string)
        (chunks : list string) (later : list event) :
  network (URL_href ("dumps/ettv_" ++ file ++ ".txt.gz") (_baseUrl this)) =
    ((Response :: map GunzipData chunks) ++ GunzipEnd :: later)%list ->
  _getFile network URL_href this file =
    Resolved (_convertToTorrents this (concatenation chunks)).
Proof.
  intros Hnet. unfold _getFile, _get. rewrite Hnet.
  rewrite fold_left_app, body_received.
  cbn [fold_left deliver listening data settled unhandled resolve].
  rewrite settled_stays by discriminate. reflexivity.
Qed.

Lemma fetch_resolves_with_records_witness :
  getDaily (fun _ => [Response; GunzipData "a1|Ti"; GunzipData "tle|c|l";
                      GunzipEnd; GunzipError "late"])
           (fun path base => base ++ path)
           (constructor None (Some [])) =
  Resolved (_convertToTorrents (constructor None (Some [])) "a1|Title|c|l").
Proof.
  exact (fetch_resolves_with_records
           (fun _ => [Response; GunzipData "a1|Ti"; GunzipData "tle|c|l";
                      GunzipEnd; GunzipError "late"])
           (fun path base => base ++ path)
           (constructor None (Some [])) "daily"
           ["a1|Ti"; "tle|c|l"] [GunzipError "late"] eq_refl).
Defined.

(** X12.  A body that does not decompress: the promise of [_getFile] is rejected
    with that one error, whatever text came before it and whatever happens
    after it, an ['end'] included. *)
Theorem decompression_error_rejects
        (network : string -> list event)
        (URL_href : string -> string -> string)
        (this : EttvApi) (file : string)
        (chunks : list string) (err : string) (later : list event) :
  network (URL_href ("dumps/ettv_" ++ file ++ ".txt.gz") (_baseUrl this)) =
    ((Response :: map GunzipData chunks) ++ GunzipError err :: later)%list ->
  _getFile network URL_href this file = Rejected {| message := err |}.
Proof.
  intros Hnet. unfold _getFile, _get. rewrite Hnet.
  rewrite fold_left_app, body_received.
  cbn [fold_left deliver listening data settled unhandled reject].
  rewrite settled_stays by discriminate. reflexivity.
Qed.

Lemma decompression_error_rejects_witness :
  getFull (fun _ => [Response; GunzipData "a1|T";
                     GunzipError "unexpected end of file"; GunzipEnd])
          (fun path base => base ++ path)
          (constructor None None) =
  Rejected {| message := "unexpected end of file" |}.
Proof.
  exact (decompression_error_rejects
           (fun _ => [Response; GunzipData "a1|T";
                      GunzipError "unexpected end of file"; GunzipEnd])
           (fun path base => base ++ path)
           (constructor None None) "full"
           ["a1|T"] "unexpected end of file" [GunzipEnd] eq_refl).
Defined.

Lemma not_resolved_without_end (evs : list event) :
  forall st : getState,
    forallb (fun ev => negb (is_end ev)) evs = true ->
    (forall v, settled st <> Resolved v) ->
    forall v, settled (fold_left deliver evs st) <> Resolved v.
Proof.
  induction evs as [|ev evs IH]; intros st Hevs Hst; [exact Hst|].
  cbn [forallb] in Hevs. apply andb_true_iff in Hevs as [Hev Hevs].
  cbn [fold_left]. apply IH; [exact Hevs|].
  intros v. destruct ev; cbn [deliver]; try destruct (listening st);
    cbn [settled]; try apply Hst; try discriminate Hev.
  all: destruct (settled st) as [| v0 |]; cbn [reject];
    try discriminate; apply Hst.
Qed.

(** X13.  No partial result: as long as the stream has not ended, the promise of
    [_getFile] is not resolved, however much of the text has come. *)
Theorem no_records_before_end
        (network : string -> list event)
        (URL_href : string -> string -> string)
        (this : EttvApi) (file : string) :
  forallb (fun ev => negb (is_end ev))
          (network (URL_href ("dumps/ettv_" ++ file ++ ".txt.gz")
                             (_baseUrl this))) = true ->
  forall records, _getFile network URL_href this file <> Resolved records.
Proof.
  intros Hnet records. unfold _getFile, _get.
  pose proof (not_resolved_without_end _ initialState Hnet) as Hnot.
  destruct (settled (fold_left deliver _ initialState)) as [| v |] eqn:E;
    cbn [then_]; try discriminate.
  exfalso. apply (Hnot ltac:(discriminate) v). reflexivity.
Qed.

Lemma no_records_before_end_witness :
  getDaily (fun _ => [Response; GunzipData "a1|T"; GunzipData "|c|l"])
           (fun path base => base ++ path)
           (constructor None None) = Pending.
Proof.
  destruct (getDaily (fun _ => [Response; GunzipData "a1|T";
                                GunzipData "|c|l"])
                     (fun path base => base ++ path)
                     (constructor None None)) as [| records | e] eqn:E.
  - reflexivity.
  - exfalso.
    exact (no_records_before_end
             (fun _ => [Response; GunzipData "a1|T"; GunzipData "|c|l"])
             (fun path base => base ++ path)
             (constructor None None) "daily" eq_refl records E).
  - discriminate E.
Defined.

(** X14.  A promise that is settled stays as it is: events that follow change
    neither a result nor an error. *)
Theorem settled_request_unchanged (evs later : list event)
        (endpoint : string) :
  _get (fun _ => evs) endpoint <> Pending ->
  _get (fun _ => (evs ++ later)%list) endpoint = _get (fun _ => evs) endpoint.
Proof.
  unfold _get. intros Hset. rewrite fold_left_app.
  now apply settled_stays.
Qed.

Lemma settled_request_unchanged_witness :
  _get (fun _ => ([Response; GunzipData "x"; GunzipEnd]
                    ++ [GunzipError "late"; Response; GunzipEnd])%list)
       "https://www.ettv.tv/dumps/ettv_daily.txt.gz" = Resolved "x".
Proof.
  rewrite (settled_request_unchanged
             [Response; GunzipData "x"; GunzipEnd]
             [GunzipError "late"; Response; GunzipEnd]
             "https://www.ettv.tv/dumps/ettv_daily.txt.gz"
             ltac:(discriminate)).
  reflexivity.
Defined.

Lemma request_errors_skipped (evs : list event) :
  forall st st' : getState,
    listening st = listening st' -> data st = data st' ->
    settled st = settled st' ->
    settled (fold_left deliver evs st) =
    settled (fold_left deliver
               (filter (fun ev => negb (is_request_error ev)) evs) st').
Proof.
  induction evs as [|ev evs IH]; intros st st' Hl Hd Hs; [exact Hs|].
  destruct ev; cbn [filter is_request_error negb fold_left];
    apply IH; cbn [deliver]; rewrite <- ?Hl;
    try destruct (listening st) eqn:El; cbn [listening data settled];
    congruence.
Qed.

(** X15.  An ['error'] event on the request never reaches the promise: the
    outcome of [_get] is the one of the same events without the request
    errors, so events of that kind alone leave the promise pending.  The
    only error of the request itself that rejects the promise is the one
    [https.get] throws inside the executor. *)
Theorem request_errors_unseen (network : string -> list event)
        (endpoint : string) :
  _get network endpoint =
    _get (fun e => filter (fun ev => negb (is_request_error ev)) (network e))
         endpoint /\
  (forallb is_request_error (network endpoint) = true ->
   _get network endpoint = Pending) /\
  (forall err later,
     network endpoint = GetThrows err :: later ->
     _get network endpoint = Rejected {| message := err |}).
Proof.
  assert (Hskip : _get network endpoint =
                  _get (fun e => filter (fun ev => negb (is_request_error ev))
                                        (network e)) endpoint)
    by (unfold _get; now apply request_errors_skipped).
  split; [exact Hskip|]. split.
  - intros Hall. rewrite Hskip. unfold _get.
    assert (Hnone : filter (fun ev => negb (is_request_error ev))
                           (network endpoint) = []).
    { induction (network endpoint) as [|ev evs IH]; [reflexivity|].
      cbn [forallb] in Hall. apply andb_true_iff in Hall as [Hev Hevs].
      cbn [filter]. rewrite Hev. cbn [negb]. now apply IH. }
    now rewrite Hnone.
  - intros err later Hnet. unfold _get. rewrite Hnet.
    cbn [fold_left deliver initialState settled reject].
    now apply rejected_stays.
Qed.
